(** * BALBM: the D2Q9 lattice of [lattice.hh] and the equilibrium functors

    A shallow embedding of [balbm::d2q9::Lattice] (src/include/lattice.hh)
    and of the equilibrium functor hierarchy (equilibrium.hh).

    - [unsigned] and [int] are 32-bit; values are integers of [Z] and every
      wrap-around of the source's arithmetic is written out with [u32]/[s32].
    - [double] is IEEE binary64, the kernel's primitive [float].
    - The two [std::unique_ptr<double[]>] buffers live in a store keyed by
      their address, so that exchanging the pointers and copying the
      contents are different things.
    - Undefined behaviour (null or out-of-range dereference, a read of an
      uninitialised double), C++ exceptions and running out of fuel are the
      faults of a small error monad. *)

From Stdlib Require Import ZArith QArith Floats Uint63.
From stdpp Require Import base option list list_numbers sorting gmap strings pretty.

Local Open Scope Z_scope.

(** ** Machine integers *)

(** [unsigned]: arithmetic modulo 2^32. *)
Definition u32 (z : Z) : Z := z mod 2 ^ 32.

(** Conversion of a 32-bit value to [int] (two's complement). *)
Definition s32 (z : Z) : Z := (z + 2 ^ 31) mod 2 ^ 32 - 2 ^ 31.

Definition is_unsigned (z : Z) : Prop := 0 ≤ z < 2 ^ 32.
Definition is_int (z : Z) : Prop := - 2 ^ 31 ≤ z < 2 ^ 31.

(** ** Faults and results *)

Inductive fault : Type :=
  | NullDeref                  (* dereference of a null pointer *)
  | OutOfRange                 (* access past the end of an array or vector *)
  | Dangling                   (* access through an address that owns no array *)
  | Indeterminate              (* read of a double that was never written *)
  | AssertFailed               (* a failed [assert] *)
  | Thrown (type what : string) (* a C++ exception: its class and its [what()] *)
  | OutOfFuel.                 (* the loop did not finish within the fuel *)

Inductive Res (A : Type) : Type :=
  | Ok (a : A)
  | Fault (e : fault).
Arguments Ok {A} a.
Arguments Fault {A} e.

#[global] Instance Res_ret : MRet Res := λ A a, Ok a.
#[global] Instance Res_bind : MBind Res :=
  λ A B k m, match m with Ok a => k a | Fault e => Fault e end.

Definition is_Ok {A} (r : Res A) : bool :=
  match r with Ok _ => true | Fault _ => false end.

(** ** The store of [double] arrays *)

(** An array cell is [None] until it is first written: [new double[n]]
    leaves its elements uninitialised. *)
Abbreviation loc := positive (only parsing).
Abbreviation heap := (gmap positive (list (option float))) (only parsing).

(** [new double[n]]: a fresh address owning [n] uninitialised cells. *)
Definition new_array (h : heap) (n : Z) : heap * loc :=
  let a := fresh (dom h) in (<[a := replicate (Z.to_nat n) None]> h, a).

(** A pointer into an array: the owning address and an element offset. *)
Definition place : Type := loc * Z.

Definition load (h : heap) (p : place) : Res float :=
  match h !! p.1 with
  | None => Fault Dangling
  | Some buf =>
      if bool_decide (0 ≤ p.2) then
        match buf !! Z.to_nat p.2 with
        | Some (Some v) => Ok v
        | Some None => Fault Indeterminate
        | None => Fault OutOfRange
        end
      else Fault OutOfRange
  end.

Definition store (h : heap) (p : place) (v : float) : Res heap :=
  match h !! p.1 with
  | None => Fault Dangling
  | Some buf =>
      if bool_decide (0 ≤ p.2 < Z.of_nat (length buf)) then
        Ok (<[p.1 := <[Z.to_nat p.2 := Some v]> buf]> h)
      else Fault OutOfRange
  end.

(** ** Scalars *)

(** The arithmetic the numeric code is written with.  The program runs it
    on [double]; the same expressions are also read over the rationals,
    where no operation rounds. *)
Class Scalar (R : Type) : Type := {
  of_Z : Z → R;
  sadd : R → R → R;
  ssub : R → R → R;
  smul : R → R → R;
  sdiv : R → R → R;
}.

Declare Scope scalar_scope.
Delimit Scope scalar_scope with S.
Notation "x + y" := (sadd x y) : scalar_scope.
Notation "x - y" := (ssub x y) : scalar_scope.
Notation "x * y" := (smul x y) : scalar_scope.
Notation "x / y" := (sdiv x y) : scalar_scope.

(** An integer as a [double]; exact below 2^53. *)
Definition float_of_Z (z : Z) : float :=
  if bool_decide (z < 0) then (- PrimFloat.of_uint63 (Uint63.of_Z (- z)))%float
  else PrimFloat.of_uint63 (Uint63.of_Z z).

#[global] Instance float_scalar : Scalar float :=
  {| of_Z := float_of_Z; sadd := PrimFloat.add; ssub := PrimFloat.sub;
     smul := PrimFloat.mul; sdiv := PrimFloat.div |}.

#[global] Instance Q_scalar : Scalar Q :=
  {| of_Z := inject_Z; sadd := Qplus; ssub := Qminus; smul := Qmult; sdiv := Qdiv |}.

(** Left-to-right accumulation from zero, as a summing loop does it. *)
Definition ssum {R} `{Scalar R} (xs : list R) : R := foldl sadd (of_Z 0) xs.

(** ** Static constants of the D2Q9 scheme *)

Definition dx : float := 1%float.
Definition dt : float := 1%float.
Definition c_ : float := (dx / dt)%float.
Definition cs : float := (c_ / PrimFloat.sqrt 3)%float.
Definition cssq : float := (cs * cs)%float.
Definition num_k : Z := 9.

(** Modelled from the spec: the initialiser of [Lattice::lat_vecs_] is in
    lattice.cc, which is not among the sources.  The nine velocity vectors
    of the scheme, numbered as in the diagram that heads the class: 0 at
    rest, 1 to 4 along the axes, 5 to 8 along the diagonals. *)
Definition velocities {R} `{Scalar R} : list (R * R) :=
  [ (of_Z 0, of_Z 0);
    (of_Z 1, of_Z 0); (of_Z 0, of_Z 1); (of_Z (-1), of_Z 0); (of_Z 0, of_Z (-1));
    (of_Z 1, of_Z 1); (of_Z (-1), of_Z 1); (of_Z (-1), of_Z (-1));
    (of_Z 1, of_Z (-1)) ].

(** Modelled from the spec: the initialiser of [Lattice::w_] is in
    lattice.cc, which is not among the sources.  The nine weights of the
    scheme: 4/9 at rest, 1/9 along the axes, 1/36 along the diagonals. *)
Definition weights {R} `{Scalar R} : list R :=
  [ of_Z 4 / of_Z 9;
    of_Z 1 / of_Z 9; of_Z 1 / of_Z 9; of_Z 1 / of_Z 9; of_Z 1 / of_Z 9;
    of_Z 1 / of_Z 36; of_Z 1 / of_Z 36; of_Z 1 / of_Z 36; of_Z 1 / of_Z 36 ]%S.

(** The two static tables of the class, of [double]s. *)
Definition lat_vecs_ : list (float * float) := velocities.
Definition w_ : list float := weights.

(** The memory a [double[9][2]] occupies: its rows one after the other. *)
Definition row_major (t : list (float * float)) : list float :=
  p ← t; [p.1; p.2].

(** Reading the double at an offset from the start of a table. *)
Definition table_at {A} (t : list A) (off : Z) : Res A :=
  if bool_decide (0 ≤ off) then
    match t !! Z.to_nat off with Some v => Ok v | None => Fault OutOfRange end
  else Fault OutOfRange.

(** ** The exceptions of [check_bounds] *)

(** [std::out_of_range(os.str())], the text as the stream builds it. *)
Definition out_of_bounds_msg (i j : Z) : string :=
  "(i, j) = (" +:+ pretty i +:+ ", " +:+ pretty j +:+
  ") is out of bounds. Check boundary conditions to ensure they are well-defined.".

Definition out_of_range (i j : Z) : fault :=
  Thrown "std::out_of_range" (out_of_bounds_msg i j).

(** ** The lattice *)

Section Lattice.
(** [D]: the objects of the classes derived from [AbstractNodeDesc];
    [P]: the states of a [SimpleMemPool]; [MM], [CM]: the states of an
    [IncompFlowMultiscaleMap] and of an [IncompFlowCollisionManager].
    None of these classes is defined in lattice.hh. *)
Context {D P MM CM : Type}.

(** The data members, in the order of their declaration.  A
    [unique_ptr] is [None] when it is null, and so is an
    [AbstractNodeDesc *]. *)
Record Lattice : Type := mkLattice {
  ni_ : Z;
  nj_ : Z;
  spf_ : option loc;
  spftemp_ : option loc;
  node_descs_ : list (option D);
  mem_pool_ : P;
}.

(** The machine state a member function runs in: the store of arrays
    and the lattice object. *)
Definition state : Type := heap * Lattice.

(** What lattice.hh uses of [SimpleMemPool] (helpers/mem_helpers.hh):
    its two constructors and [allocate<Node>(args...)], which hands out
    the address of the new node or a null pointer ([false]). *)
Class SimpleMemPool : Type := {
  pool_default : P;
  pool_new : Z → P;
  pool_allocate : P → D → P * bool;
}.

(** What lattice.hh uses of [AbstractNodeDesc] (node_desc.hh): the two
    virtual member functions, which receive the lattice itself and are
    its friends, the destructor, and [max_node_desc_size()]. *)
Class AbstractNodeDesc : Type := {
  nd_stream : D → state → Z → Z → Res state;
  nd_collide_and_bound : D → state → MM → CM → Z → Z → Res (state * MM);
  nd_destroy : D → Res ();
  max_node_desc_size : Z;
}.

Context `{!SimpleMemPool, !AbstractNodeDesc}.

(** *** Private members *)

Definition with_ptr {A} (p : option A) : Res A :=
  match p with Some a => Ok a | None => Fault NullDeref end.

(** [&(spf_[(i * nj_ + j) * num_k()])] *)
Definition pf_ (L : Lattice) (i j : Z) : Res place :=
  a ← with_ptr (spf_ L); Ok (a, u32 (u32 (u32 (i * nj_ L) + j) * num_k)).

(** [*(pf_(i, j) + k)], as the place the reference designates. *)
Definition f_ (L : Lattice) (i j k : Z) : Res place :=
  p ← pf_ L i j; Ok (p.1, p.2 + k).

Definition pft_ (L : Lattice) (i j : Z) : Res place :=
  a ← with_ptr (spftemp_ L); Ok (a, u32 (u32 (u32 (i * nj_ L) + j) * num_k)).

Definition ft_ (L : Lattice) (i j k : Z) : Res place :=
  p ← pft_ L i j; Ok (p.1, p.2 + k).

(** Modelled from the spec: the populations [init_f_] gives a cell, the
    equilibrium of a fluid at rest with density [rho], which is [w_k * rho]
    in direction [k].  The body of [init_f_] is in lattice.cc, which is not
    among the sources. *)
Definition quiescent (rho : float) : list (option float) :=
  (λ wk, Some (wk * rho)%float) <$> w_.

(** Modelled from the spec: [Lattice::init_f_] is only declared in
    lattice.hh; its body is in lattice.cc, which is not among the
    sources.  It sets the nine populations of every cell of the current
    buffer to those of a fluid at rest with density [rho].  A lattice
    without cells is left as it is; a buffer too short for the cells is
    written past its end. *)
Definition init_f_ (st : state) (rho : float) : Res state :=
  let cells := ni_ st.2 * nj_ st.2 in
  if decide (cells = 0) then Ok st
  else
    a ← with_ptr (spf_ st.2);
    match st.1 !! a with
    | None => Fault Dangling
    | Some buf =>
        if decide (num_k * cells ≤ Z.of_nat (length buf)) then
          Ok (<[a := mjoin (replicate (Z.to_nat cells) (quiescent rho))
                     ++ drop (Z.to_nat (num_k * cells)) buf]> st.1,
              st.2)
        else Fault OutOfRange
    end.

(** *** Constructors and destructor *)

(** [Lattice()] *)
Definition Lattice_default : Lattice :=
  {| ni_ := 0; nj_ := 0; spf_ := None; spftemp_ := None;
     node_descs_ := []; mem_pool_ := pool_default |}.

(** [Lattice(ni, nj, rho)].  The two array sizes and the vector size are
    products of [unsigned] values.  The width of the product that sizes
    the pool is that of [max_node_desc_size()], which the sources do not
    give; it is left unwrapped. *)
Definition Lattice_new (h : heap) (ni nj : Z) (rho : float) : Res state :=
  let n := u32 (u32 (ni * nj) * num_k) in
  let '(h1, a) := new_array h n in
  let '(h2, b) := new_array h1 n in
  init_f_ (h2, {| ni_ := ni; nj_ := nj; spf_ := Some a; spftemp_ := Some b;
                  node_descs_ := replicate (Z.to_nat (u32 (ni * nj))) None;
                  mem_pool_ := pool_new (max_node_desc_size * ni * nj) |}) rho.

(** The range-for of the destructor: every handle is dereferenced and the
    node's destructor called.  The result lists the nodes whose destructor
    was called, in order, and says how the loop ended. *)
Fixpoint destroy_node_descs (hs : list (option D)) : list D * Res () :=
  match hs with
  | [] => ([], Ok ())
  | None :: _ => ([], Fault NullDeref)
  | Some d :: hs' =>
      match nd_destroy d with
      | Ok _ => let r := destroy_node_descs hs' in (d :: r.1, r.2)
      | Fault e => ([d], Fault e)
      end
  end.

(** [try { for ... } catch (...) { }]: the handler takes any exception
    that leaves the loop; undefined behaviour is not an exception. *)
Definition catch_all (r : Res ()) : Res () :=
  match r with Fault (Thrown _ _) => Ok () | _ => r end.

(** [delete[]] through a [unique_ptr], a no-op on a null one. *)
Definition release (h : heap) (p : option loc) : heap :=
  match p with Some a => delete a h | None => h end.

(** [~Lattice()]: the body, then the members' own destructors, which
    give back the two arrays.  Returns the nodes whose destructor was
    called and the store left behind. *)
Definition Lattice_dtor (st : state) : list D * Res heap :=
  let r := destroy_node_descs (node_descs_ st.2) in
  (r.1, _ ← catch_all r.2; Ok (release (release st.1 (spftemp_ st.2)) (spf_ st.2))).

(** *** Accessors *)

Definition num_i (L : Lattice) : Z := ni_ L.
Definition num_j (L : Lattice) : Z := nj_ L.

(** [spf_[ni_ * (i * nj_ + j) + k]] *)
Definition f (st : state) (i j k : Z) : Res float :=
  a ← with_ptr (spf_ st.2);
  load st.1 (a, u32 (u32 (ni_ st.2 * u32 (u32 (i * nj_ st.2) + j)) + k)).

(** [spftemp_[ni_ * (i * nj_ + j) + k]] *)
Definition ftemp (st : state) (i j k : Z) : Res float :=
  a ← with_ptr (spftemp_ st.2);
  load st.1 (a, u32 (u32 (ni_ st.2 * u32 (u32 (i * nj_ st.2) + j)) + k)).

(** [*(node_descs_[nj_ * i + j])] *)
Definition node_desc (L : Lattice) (i j : Z) : Res D :=
  match node_descs_ L !! Z.to_nat (u32 (u32 (nj_ L * i) + j)) with
  | None => Fault OutOfRange
  | Some None => Fault NullDeref
  | Some (Some d) => Ok d
  end.

(** [set_node_desc<Node>(i, j, args...)], where [nd] is the node that
    [Node(args...)] constructs.  [ndebug] tells whether [NDEBUG] is
    defined; without it a null pointer from the pool fails the [assert]. *)
Definition set_node_desc (ndebug : bool) (L : Lattice) (i j : Z) (nd : D)
  : Res Lattice :=
  let r := pool_allocate (mem_pool_ L) nd in
  let pnd := if r.2 then Some nd else None in
  if negb ndebug && negb r.2 then Fault AssertFailed
  else
    let idx := Z.to_nat (u32 (u32 (nj_ L * i) + j)) in
    if decide (idx < length (node_descs_ L))%nat then
      Ok {| ni_ := ni_ L; nj_ := nj_ L; spf_ := spf_ L; spftemp_ := spftemp_ L;
            node_descs_ := <[idx := pnd]> (node_descs_ L); mem_pool_ := r.1 |}
    else Fault OutOfRange.

(** [&lat_vecs_[2 * k]].  [lat_vecs_] is declared [double[9][2]], so
    [lat_vecs_[r]] is its row [r], which begins [2 * r] doubles after the
    start of the table.  The result is that offset. *)
Definition pc (k : Z) : Z := 2 * u32 (2 * k).

(** [*(pc(k) + c)] *)
Definition c (k comp : Z) : Res float :=
  table_at (row_major lat_vecs_) (pc k + comp).

(** [w_[k]] *)
Definition w (k : Z) : Res float := table_at w_ k.

(** *** Streaming and collision *)

(** [for (unsigned i = b; i <= e; ++i) body]: each unit of fuel pays for
    one test of the condition. *)
Fixpoint for_upto {S : Type} (fuel : nat) (i e : Z) (body : Z → S → Res S) (s : S)
  : Res S :=
  match fuel with
  | O => Fault OutOfFuel
  | Datatypes.S fuel' =>
      if bool_decide (i ≤ e) then
        s' ← body i s; for_upto fuel' (u32 (i + 1)) e body s'
      else Ok s
  end.

(** [stream(i, j)] *)
Definition stream_ij (st : state) (i j : Z) : Res state :=
  d ← node_desc st.2 i j; nd_stream d st i j.

(** [stream(bi, ei, bj, ej)] *)
Definition stream_region (fuel : nat) (st : state) (bi ei bj ej : Z) : Res state :=
  for_upto fuel bi ei
    (λ i, for_upto fuel bj ej (λ j s, stream_ij s i j)) st.

(** [stream()] *)
Definition stream (fuel : nat) (st : state) : Res state :=
  stream_region fuel st 0 (u32 (ni_ st.2 - 1)) 0 (u32 (nj_ st.2 - 1)).

(** [collide_and_bound(mmap, cman, i, j)]; [mmap] is passed by
    non-const reference and comes back with the state. *)
Definition collide_and_bound_ij (cman : CM) (sm : state * MM) (i j : Z)
  : Res (state * MM) :=
  d ← node_desc sm.1.2 i j; nd_collide_and_bound d sm.1 sm.2 cman i j.

(** [collide_and_bound(mmap, cman, bi, ei, bj, ej)] *)
Definition collide_and_bound_region (fuel : nat) (cman : CM) (sm : state * MM)
    (bi ei bj ej : Z) : Res (state * MM) :=
  for_upto fuel bi ei
    (λ i, for_upto fuel bj ej (λ j s, collide_and_bound_ij cman s i j)) sm.

(** [collide_and_bound(mmap, cman)] *)
Definition collide_and_bound (fuel : nat) (cman : CM) (sm : state * MM)
  : Res (state * MM) :=
  collide_and_bound_region fuel cman sm
    0 (u32 (ni_ sm.1.2 - 1)) 0 (u32 (nj_ sm.1.2 - 1)).

(** [spf_.swap(spftemp_)]: the two pointers change places; the store is
    not written. *)
Definition swap_f_ptrs (st : state) : state :=
  (st.1,
   {| ni_ := ni_ st.2; nj_ := nj_ st.2;
      spf_ := spftemp_ st.2; spftemp_ := spf_ st.2;
      node_descs_ := node_descs_ st.2; mem_pool_ := mem_pool_ st.2 |}).

(** *** Bounds checking *)

(** [in_bounds(const int i, const int j)].  In [i < ni_] the [int] is
    converted to [unsigned] before the comparison; [i >= 0] compares
    [int]s. *)
Definition in_bounds (L : Lattice) (i j : Z) : bool :=
  bool_decide (u32 i < ni_ L) && bool_decide (0 ≤ i) &&
  bool_decide (u32 j < nj_ L) && bool_decide (0 ≤ j).

(** [check_bounds(const unsigned i, const unsigned j)]: the call of
    [in_bounds] converts both arguments to [int]. *)
Definition check_bounds (L : Lattice) (i j : Z) : Res () :=
  if negb (in_bounds L (s32 i) (s32 j)) then Fault (out_of_range i j) else Ok ().

(** *** Sequencing a per-cell operation over a list of cells *)

(** The operation applied to each element in turn, each call in the state
    the one before it left; the first fault ends the run. *)
Fixpoint run_seq {S A : Type} (op : S → A → Res S) (xs : list A) (s : S) : Res S :=
  match xs with
  | [] => Ok s
  | x :: xs' => s' ← op s x; run_seq op xs' s'
  end.

Definition run_cells {S : Type} (op : S → Z → Z → Res S) (cells : list (Z * Z)) (s : S)
  : Res S :=
  run_seq (λ s ij, op s ij.1 ij.2) cells s.

(** Rows first: a cell comes before another when its row does, or when
    they share the row and its column does. *)
Definition row_major_lt (p q : Z * Z) : Prop :=
  p.1 < q.1 ∨ (p.1 = q.1 ∧ p.2 < q.2).

(** The cells of a region with both ends included, rows first. *)
Definition region_cells (bi ei bj ej : Z) : list (Z * Z) :=
  i ← seqZ bi (ei - bi + 1); j ← seqZ bj (ej - bj + 1); [(i, j)].

End Lattice.

Arguments Lattice : clear implicits.
Arguments state : clear implicits.
Arguments SimpleMemPool : clear implicits.
Arguments AbstractNodeDesc : clear implicits.

(** ** The equilibrium functors *)

(** What the functors read of the multiscale map: the local density and
    the local velocity.  [AbstractMultiscaleMap] is not among the sources. *)
Record MultiscaleMap (R : Type) : Type := mkMultiscaleMap {
  mm_rho : R;
  mm_u : R * R;
}.
Arguments mkMultiscaleMap {R} _ _.
Arguments mm_rho {R} _.
Arguments mm_u {R} _.

Section Equilibrium.
Context {R : Type} `{Scalar R}.
Local Open Scope scalar_scope.

(** The terms of the expansion that depend on the velocity, in lattice
    units (c = 1, cs^2 = 1/3): 3 (c_k.u) + 9/2 (c_k.u)^2 - 3/2 (u.u). *)
Definition velocity_terms (ck u : R * R) : R :=
  let cu := ck.1 * u.1 + ck.2 * u.2 in
  let uu := u.1 * u.1 + u.2 * u.2 in
  of_Z 3 * cu + of_Z 9 / of_Z 2 * (cu * cu) - of_Z 3 / of_Z 2 * uu.

(** Modelled from the spec: [IncompFlowEqFunct::f_] is only declared in
    equilibrium.hh; its body is not among the sources.  The classical
    truncated Maxwell-Boltzmann expansion in lattice units, from the
    direction's weight and velocity vector and the local density and
    velocity: w_k rho (1 + 3 (c_k.u) + 9/2 (c_k.u)^2 - 3/2 (u.u)).  The
    weight and the vector are those of the two static tables, which is all
    the functor can take from its [lat] argument. *)
Definition IncompFlowEqFunct_f_ (mmap : MultiscaleMap R) (k : Z) : Res R :=
  wk ← table_at weights k;
  ck ← table_at velocities k;
  Ok (wk * mm_rho mmap * (of_Z 1 + velocity_terms ck (mm_u mmap))).

(** Modelled from the spec: [IncompFlowHLEqFunct::f_] is only declared in
    equilibrium.hh; its body is not among the sources.  The variant of He
    and Luo: the velocity terms are scaled by the fixed reference density
    [rho_o] in place of the local one:
    w_k (rho + rho_o (3 (c_k.u) + 9/2 (c_k.u)^2 - 3/2 (u.u))).  The
    constructor takes [rho_o] as an [unsigned] and stores it in a double. *)
Definition IncompFlowHLEqFunct_f_ (rho_o : Z) (mmap : MultiscaleMap R) (k : Z) : Res R :=
  wk ← table_at weights k;
  ck ← table_at velocities k;
  Ok (wk * (mm_rho mmap + of_Z rho_o * velocity_terms ck (mm_u mmap))).

(** [AbstractEqFunct::f]: the public entry forwards to the virtual [f_]. *)
Definition AbstractEqFunct_f (f_ : MultiscaleMap R → Z → Res R)
    (mmap : MultiscaleMap R) (k : Z) : Res R :=
  f_ mmap k.

(** The outputs of a functor for the nine directions, in their order. *)
Definition equilibrium_outputs (f_ : MultiscaleMap R → Z → Res R)
    (mmap : MultiscaleMap R) : Res (list R) :=
  mapM (AbstractEqFunct_f f_ mmap) (seqZ 0 num_k).

End Equilibrium.

(** ** A test double for the classes outside the sources *)

(** A node is [true] when its destructor returns and [false] when it
    throws.  Streaming copies the rest population of the cell into the next
    buffer; collision records the cell in the multiscale map, here the list
    of the cells it was asked about, latest first. *)
Definition mock_stream (d : bool) (st : state bool Z) (i j : Z)
  : Res (state bool Z) :=
  p ← f_ st.2 i j 0; v ← load st.1 p;
  q ← ft_ st.2 i j 0; h ← store st.1 q v;
  Ok (h, st.2).

Definition mock_collide_and_bound (d : bool) (st : state bool Z)
    (mmap : list (Z * Z)) (cman : ()) (i j : Z)
  : Res (state bool Z * list (Z * Z)) :=
  Ok (st, (i, j) :: mmap).

Definition mock_destroy (d : bool) : Res () :=
  if d then Ok () else Fault (Thrown "std::runtime_error" "node").

#[global] Instance mock_node_desc : AbstractNodeDesc bool Z (list (Z * Z)) () :=
  {| nd_stream := mock_stream;
     nd_collide_and_bound := mock_collide_and_bound;
     nd_destroy := mock_destroy;
     max_node_desc_size := 1 |}.

(** A pool that counts the nodes it can still hold. *)
#[global] Instance mock_pool : SimpleMemPool bool Z :=
  {| pool_default := 0;
     pool_new := λ size, size;
     pool_allocate := λ p _, if bool_decide (0 < p) then (p - 1, true) else (p, false) |}.

(** A 2 x 3 lattice whose six cells hold a node. *)
Definition mock_2x3 : state bool Z :=
  (∅, mkLattice 2 3 None None (replicate 6 (Some true)) 0).


(** ** The remaining accessors, and the use of the references *)

Section References.
Context {D P : Type}.
Implicit Types (st : state D P) (L : Lattice D P).

(** [spf_.get()] *)
Definition pf L : option loc := spf_ L.

(** [spftemp_.get()] *)
Definition pftemp L : option loc := spftemp_ L.

(** [node_descs()]: the vector of handles, by const reference. *)
Definition node_descs L : list (option D) := node_descs_ L.

(** Reading the double that the reference [f_(i, j, k)] designates. *)
Definition get_f_ st (i j k : Z) : Res float :=
  p ← f_ st.2 i j k; load st.1 p.

(** [f_(i, j, k) = v] *)
Definition set_f_ st (i j k : Z) (v : float) : Res (state D P) :=
  p ← f_ st.2 i j k; h ← store st.1 p v; Ok (h, st.2).

(** Reading the double that the reference [ft_(i, j, k)] designates. *)
Definition get_ft_ st (i j k : Z) : Res float :=
  p ← ft_ st.2 i j k; load st.1 p.

(** [ft_(i, j, k) = v] *)
Definition set_ft_ st (i j k : Z) (v : float) : Res (state D P) :=
  p ← ft_ st.2 i j k; h ← store st.1 p v; Ok (h, st.2).

(** The shape the constructor [Lattice(ni, nj, rho)] gives a lattice when
    [ni * nj * num_k()] does not wrap around: the two pointers own two
    different arrays of [ni_ * nj_ * 9] doubles, and the vector of handles
    has [ni_ * nj_] entries. *)
Definition Lattice_shape st : Prop :=
  is_unsigned (ni_ st.2) ∧ is_unsigned (nj_ st.2) ∧
  ni_ st.2 * nj_ st.2 * 9 < 2 ^ 32 ∧
  Z.of_nat (length (node_descs_ st.2)) = ni_ st.2 * nj_ st.2 ∧
  ∃ (a b : loc) (bufa bufb : list (option float)),
    spf_ st.2 = Some a ∧ spftemp_ st.2 = Some b ∧ a ≠ b ∧
    st.1 !! a = Some bufa ∧ st.1 !! b = Some bufb ∧
    Z.of_nat (length bufa) = ni_ st.2 * nj_ st.2 * 9 ∧
    Z.of_nat (length bufb) = ni_ st.2 * nj_ st.2 * 9.

End References.

(** A 2 x 3 lattice of the shape the constructor gives, with its two
    arrays at the addresses 1 and 2 and a node at every cell. *)
Definition mock_shaped_2x3 : state bool Z :=
  ({[ 1%positive := replicate 54 None; 2%positive := replicate 54 None ]},
   mkLattice 2 3 (Some 1%positive) (Some 2%positive) (replicate 6 (Some true)) 6).

(** * Properties *)

(** A statement over the elements of a short explicit list, each case
    settled by evaluation. *)
Ltac each_case :=
  repeat first [apply Forall_nil_2 | apply Forall_cons_2 | split];
  vm_compute; reflexivity.

(** ** Machine integers *)

Lemma u32_small (z : Z) : is_unsigned z → u32 z = z.
Proof. intros Hz. apply Z.mod_small. exact Hz. Qed.

Lemma u32_range (z : Z) : is_unsigned (u32 z).
Proof. unfold is_unsigned, u32. apply Z.mod_pos_bound. lia. Qed.

Lemma s32_low (z : Z) : 0 ≤ z < 2 ^ 31 → s32 z = z.
Proof. intros Hz. unfold s32. rewrite Z.mod_small; lia. Qed.

Lemma s32_high (z : Z) : 2 ^ 31 ≤ z < 2 ^ 32 → s32 z = z - 2 ^ 32.
Proof.
  intros Hz. unfold s32.
  replace (z + 2 ^ 31) with ((z - 2 ^ 31) + 1 * 2 ^ 32) by lia.
  rewrite Z_mod_plus_full, Z.mod_small; lia.
Qed.

Lemma s32_range (z : Z) : is_int (s32 z).
Proof.
  unfold is_int, s32.
  pose proof (Z.mod_pos_bound (z + 2 ^ 31) (2 ^ 32)). lia.
Qed.

(** Converting to [int] and back gives the [unsigned] again. *)
Lemma u32_s32 (z : Z) : is_unsigned z → u32 (s32 z) = z.
Proof.
  intros Hz. destruct (decide (z < 2 ^ 31)).
  - rewrite s32_low by (unfold is_unsigned in Hz; lia). by apply u32_small.
  - rewrite s32_high by (unfold is_unsigned in Hz; lia). unfold u32.
    replace (z - 2 ^ 32) with (z + (-1) * 2 ^ 32) by lia.
    rewrite Z_mod_plus_full. by apply Z.mod_small.
Qed.

(** Converting an [int] to [unsigned] and back gives the [int] again. *)
Lemma s32_u32 (z : Z) : is_int z → s32 (u32 z) = z.
Proof.
  intros Hz. unfold is_int in Hz. unfold u32. destruct (decide (0 ≤ z)).
  - rewrite Z.mod_small by lia. apply s32_low. lia.
  - replace z with ((z + 2 ^ 32) + (-1) * 2 ^ 32) at 1 by lia.
    rewrite Z_mod_plus_full, Z.mod_small by lia.
    rewrite s32_high; lia.
Qed.

(** ** Bounds checking *)

Section Bounds.
Context {D P : Type}.
Implicit Types L : Lattice D P.

(** On [int] arguments [in_bounds] is the mathematical range test: a
    negative index converts to an [unsigned] of at least 2^31, and the
    signed comparison [i >= 0] rejects it at any rate. *)
Lemma in_bounds_int L (a b : Z) :
  in_bounds L a b = true ↔ 0 ≤ a ∧ u32 a < ni_ L ∧ 0 ≤ b ∧ u32 b < nj_ L.
Proof.
  unfold in_bounds. rewrite !andb_true_iff, !bool_decide_eq_true. tauto.
Qed.

Lemma check_bounds_Ok L (i j : Z) :
  check_bounds L i j = Ok () ↔ in_bounds L (s32 i) (s32 j) = true.
Proof.
  unfold check_bounds. destruct (in_bounds L (s32 i) (s32 j)); simpl.
  - tauto.
  - split; discriminate.
Qed.

Lemma check_bounds_cases L (i j : Z) :
  check_bounds L i j = Ok () ∨ check_bounds L i j = Fault (out_of_range i j).
Proof. unfold check_bounds. destruct (negb _); auto. Qed.

(** C3: for [unsigned] arguments, [check_bounds(i, j)] throws a
    [std::out_of_range] whose message holds [i] and [j] in decimal, between
    the two pieces of text of lines 169 to 171, exactly when [i >= ni_], or
    [j >= nj_], or an index is negative once converted to [int]; otherwise
    it returns.  [in_bounds] is true exactly when [check_bounds] returns,
    on the [int]s that [check_bounds] passes it and on every pair of
    [int]s, where it is the test 0 <= i < ni_ and 0 <= j < nj_. *)
Theorem check_bounds_spec L (i j : Z) :
  is_unsigned i → is_unsigned j →
  (check_bounds L i j
   = Fault (Thrown "std::out_of_range"
              ("(i, j) = (" +:+ pretty i +:+ ", " +:+ pretty j +:+
               ") is out of bounds. Check boundary conditions to ensure they are well-defined."))
     ↔ ni_ L ≤ i ∨ nj_ L ≤ j ∨ s32 i < 0 ∨ s32 j < 0) ∧
  (check_bounds L i j = Ok ()
     ↔ ¬ (ni_ L ≤ i ∨ nj_ L ≤ j ∨ s32 i < 0 ∨ s32 j < 0)) ∧
  (in_bounds L (s32 i) (s32 j) = true ↔ check_bounds L i j = Ok ()) ∧
  (∀ a b : Z, is_int a → is_int b →
     (in_bounds L a b = true ↔ check_bounds L (u32 a) (u32 b) = Ok ()) ∧
     (in_bounds L a b = true ↔ 0 ≤ a < ni_ L ∧ 0 ≤ b < nj_ L)).
Proof.
  intros Hi Hj.
  change (Fault (Thrown _ _)) with (@Fault () (out_of_range i j)).
  assert (Hok : check_bounds L i j = Ok ()
     ↔ ¬ (ni_ L ≤ i ∨ nj_ L ≤ j ∨ s32 i < 0 ∨ s32 j < 0)).
  { rewrite check_bounds_Ok, in_bounds_int, !u32_s32 by assumption. lia. }
  split; [|split; [exact Hok|split]].
  - destruct (check_bounds_cases L i j) as [E|E].
    + split.
      * rewrite E. discriminate.
      * intros Hout. apply Hok in E. tauto.
    + split; [|tauto]. intros _.
      destruct (decide (ni_ L ≤ i ∨ nj_ L ≤ j ∨ s32 i < 0 ∨ s32 j < 0))
        as [?|Hin]; [assumption|].
      apply Hok in Hin. rewrite E in Hin. discriminate.
  - symmetry. apply check_bounds_Ok.
  - intros a b Ha Hb. split.
    + rewrite check_bounds_Ok, !s32_u32 by assumption. tauto.
    + rewrite in_bounds_int. split.
      * intros (Ha0 & Han & Hb0 & Hbn).
        rewrite !u32_small in * by (unfold is_int, is_unsigned in *; lia). lia.
      * intros [Ha' Hb'].
        assert (Hni : is_unsigned a) by (unfold is_int, is_unsigned in *; lia).
        assert (Hnj : is_unsigned b) by (unfold is_int, is_unsigned in *; lia).
        rewrite !u32_small by assumption. lia.
Qed.

End Bounds.

(** The message for the cell (5, 7). *)
Example out_of_bounds_msg_5_7 :
  out_of_bounds_msg 5 7 =
  "(i, j) = (5, 7) is out of bounds. Check boundary conditions to ensure they are well-defined.".
Proof. reflexivity. Qed.

(** [check_bounds_spec] on a 4 x 4 lattice, at the cell (5, 7): what is
    thrown, with its message. *)
Lemma check_bounds_spec_4x4 :
  is_unsigned 5 ∧ is_unsigned 7 ∧
  check_bounds (mkLattice (D:=bool) 4 4 None None [] 0) 5 7
  = Fault (Thrown "std::out_of_range"
      "(i, j) = (5, 7) is out of bounds. Check boundary conditions to ensure they are well-defined.").
Proof.
  assert (H5 : is_unsigned 5) by (unfold is_unsigned; lia).
  assert (H7 : is_unsigned 7) by (unfold is_unsigned; lia).
  split; [exact H5|]. split; [exact H7|].
  apply (proj2 (proj1 (check_bounds_spec (mkLattice (D:=bool) 4 4 None None [] 0)
                         5 7 H5 H7))).
  simpl. lia.
Defined.

(** ** Swapping the buffers *)

Section Swap.
Context {D P : Type}.
Implicit Types st : state D P.

(** C8: two calls of [swap_f_ptrs] in a row give back the state they
    started from, with each pointer on its original array; one call
    exchanges the two pointers, so that the current buffer is read where
    the next one was and conversely, and leaves the store, hence every
    population of both arrays, as it was. *)
Theorem swap_f_ptrs_twice st :
  swap_f_ptrs (swap_f_ptrs st) = st ∧
  (swap_f_ptrs st).1 = st.1 ∧
  spf_ (swap_f_ptrs st).2 = spftemp_ st.2 ∧
  spftemp_ (swap_f_ptrs st).2 = spf_ st.2 ∧
  (∀ i j k, f_ (swap_f_ptrs st).2 i j k = ft_ st.2 i j k ∧
            ft_ (swap_f_ptrs st).2 i j k = f_ st.2 i j k).
Proof.
  destruct st as [h [ni nj a b ds pool]].
  repeat split.
Qed.

End Swap.

(** ** The counting loops *)

Section Loops.
Context {S : Type}.

Lemma run_seq_app {A} (op : S → A → Res S) (xs ys : list A) (s : S) :
  run_seq op (xs ++ ys) s = s' ← run_seq op xs s; run_seq op ys s'.
Proof.
  revert s. induction xs as [|x xs IH]; intros s; simpl.
  - reflexivity.
  - destruct (op s x) as [s'|e]; simpl; [apply IH|reflexivity].
Qed.

Lemma run_seq_bind {A B} (op : S → B → Res S) (g : A → list B) (xs : list A) (s : S) :
  run_seq op (x ← xs; g x) s = run_seq (λ s x, run_seq op (g x) s) xs s.
Proof.
  revert s. induction xs as [|x xs IH]; intros s; csimpl.
  - reflexivity.
  - rewrite run_seq_app.
    destruct (run_seq op (g x) s) as [s'|e]; simpl; [apply IH|reflexivity].
Qed.

Lemma run_seq_ext {A} (op op' : S → A → Res S) (xs : list A) (s : S) :
  (∀ s x, op s x = op' s x) → run_seq op xs s = run_seq op' xs s.
Proof.
  intros Hop. revert s. induction xs as [|x xs IH]; intros s; simpl.
  - reflexivity.
  - rewrite Hop. destruct (op' s x); simpl; [apply IH|reflexivity].
Qed.

(** A loop whose upper end is below [UINT_MAX] runs its body on
    [b], [b + 1], ..., [e] and stops, given fuel for its [e - b + 2]
    tests. *)
Lemma for_upto_run_seq (body : Z → S → Res S) (fuel : nat) :
  ∀ (b e : Z) (s : S),
    0 ≤ b → e < 2 ^ 32 - 1 → (Z.to_nat (e - b + 1) < fuel)%nat →
    for_upto fuel b e body s = run_seq (λ s i, body i s) (seqZ b (e - b + 1)) s.
Proof.
  induction fuel as [|fuel IH]; intros b e s Hb He Hfuel; [lia|].
  simpl. case_bool_decide as Hbe.
  - rewrite seqZ_cons by lia. simpl.
    destruct (body b s) as [s'|err]; simpl; [|reflexivity].
    rewrite u32_small by (unfold is_unsigned; lia).
    rewrite IH by lia. f_equal. f_equal; lia.
  - rewrite seqZ_nil by lia. reflexivity.
Qed.

(** A loop whose upper end is [UINT_MAX] never stops by itself: its test
    holds for every [unsigned], and the increment wraps around to 0. *)
Lemma for_upto_UINT_MAX (body : Z → S → Res S) (fuel : nat) :
  ∀ (b : Z) (s s' : S),
    is_unsigned b → for_upto fuel b (2 ^ 32 - 1) body s ≠ Ok s'.
Proof.
  induction fuel as [|fuel IH]; intros b s s' Hb; simpl; [discriminate|].
  rewrite bool_decide_eq_true_2 by (unfold is_unsigned in Hb; lia).
  destruct (body b s) as [s1|err]; simpl; [|discriminate].
  apply IH, u32_range.
Qed.

(** A loop that is entered and whose first round does not return does not
    return. *)
Lemma for_upto_first_stuck (body : Z → S → Res S) (fuel : nat) (b e : Z) (s : S) :
  b ≤ e → (∀ s', body b s ≠ Ok s') → ∀ s', for_upto fuel b e body s ≠ Ok s'.
Proof.
  intros Hbe Hbody s'. destruct fuel as [|fuel]; simpl; [discriminate|].
  rewrite bool_decide_eq_true_2 by exact Hbe.
  destruct (body b s) as [s1|err] eqn:Hb; simpl; [|discriminate].
  exfalso. by apply (Hbody s1).
Qed.

End Loops.

(** ** The cells of a region *)

Lemma elem_of_region_cells (bi ei bj ej i j : Z) :
  (i, j) ∈ region_cells bi ei bj ej ↔ bi ≤ i ≤ ei ∧ bj ≤ j ≤ ej.
Proof.
  unfold region_cells. rewrite list_elem_of_bind. split.
  - intros (i' & Hin & Hi'). apply list_elem_of_bind in Hin as (j' & Hin & Hj').
    apply list_elem_of_singleton in Hin. injection Hin as -> ->.
    apply elem_of_seqZ in Hi', Hj'. lia.
  - intros [Hi Hj]. exists i. split; [|apply elem_of_seqZ; lia].
    apply list_elem_of_bind. exists j. split; [|apply elem_of_seqZ; lia].
    apply list_elem_of_singleton. reflexivity.
Qed.

Lemma StronglySorted_seqZ (m n : Z) : StronglySorted Z.lt (seqZ m n).
Proof.
  destruct (decide (n ≤ 0)) as [Hn|Hn]; [rewrite seqZ_nil by lia; constructor|].
  rewrite <- (Z2Nat.id n) by lia. generalize (Z.to_nat n) as k. clear.
  intros k. revert m. induction k as [|k IH]; intros m.
  - rewrite seqZ_nil by lia. constructor.
  - rewrite seqZ_cons by lia. constructor.
    + replace (Z.pred (Z.of_nat (Datatypes.S k))) with (Z.of_nat k) by lia. apply IH.
    + apply Forall_forall. intros x Hx. apply elem_of_seqZ in Hx. lia.
Qed.

Lemma StronglySorted_bind {A B} (R1 : relation A) (R2 : relation B)
    (g : A → list B) (xs : list A) :
  (∀ x, x ∈ xs → StronglySorted R2 (g x)) →
  (∀ x1 x2 y1 y2, R1 x1 x2 → y1 ∈ g x1 → y2 ∈ g x2 → R2 y1 y2) →
  StronglySorted R1 xs → StronglySorted R2 (x ← xs; g x).
Proof.
  intros Hrow Hacross Hxs. induction Hxs as [|x xs Hxs IH Hx]; csimpl.
  - constructor.
  - apply StronglySorted_app_2.
    + intros y1 y2 Hy1 Hy2. apply list_elem_of_bind in Hy2 as (x2 & Hy2 & Hx2).
      rewrite Forall_forall in Hx. eapply Hacross; eauto.
    + apply Hrow. left.
    + apply IH. intros x' Hx'. apply Hrow. by right.
Qed.

(** The list of a region has its cells in row-major order, each once. *)
Lemma region_cells_sorted (bi ei bj ej : Z) :
  StronglySorted row_major_lt (region_cells bi ei bj ej).
Proof.
  unfold region_cells.
  apply (StronglySorted_bind Z.lt); [| |apply StronglySorted_seqZ].
  - intros i _.
    apply (StronglySorted_bind Z.lt); [| |apply StronglySorted_seqZ].
    + intros j _. repeat constructor.
    + intros j1 j2 y1 y2 Hj ->%list_elem_of_singleton ->%list_elem_of_singleton.
      right. simpl. lia.
  - intros i1 i2 y1 y2 Hi Hy1 Hy2.
    apply list_elem_of_bind in Hy1 as (j1 & ->%list_elem_of_singleton & _).
    apply list_elem_of_bind in Hy2 as (j2 & ->%list_elem_of_singleton & _).
    left. exact Hi.
Qed.

Lemma region_cells_NoDup (bi ei bj ej : Z) : NoDup (region_cells bi ei bj ej).
Proof.
  unfold region_cells. apply NoDup_bind; [| |apply NoDup_seqZ].
  - intros i1 i2 y _ _ Hy1 Hy2.
    apply list_elem_of_bind in Hy1 as (j1 & ->%list_elem_of_singleton & _).
    apply list_elem_of_bind in Hy2 as (j2 & Heq%list_elem_of_singleton & _).
    congruence.
  - intros i _. apply NoDup_bind; [| |apply NoDup_seqZ].
    + intros j1 j2 y _ _ ->%list_elem_of_singleton Heq%list_elem_of_singleton.
      congruence.
    + intros j _. apply NoDup_singleton.
Qed.

(** ** Streaming and collision over regions *)

Section Sweeps.
Context {D P MM CM : Type} `{!AbstractNodeDesc D P MM CM}.
Implicit Types (st : state D P) (cman : CM) (mmap : MM).

(** Two nested loops over a region whose ends are below [UINT_MAX] run
    the operation over the cells of the region in row-major order. *)
Lemma nested_loops_run_cells {S} (op : S → Z → Z → Res S) (fuel : nat)
    (bi ei bj ej : Z) (s : S) :
  0 ≤ bi → ei < 2 ^ 32 - 1 → 0 ≤ bj → ej < 2 ^ 32 - 1 →
  (Z.to_nat (ei - bi + 1) < fuel)%nat → (Z.to_nat (ej - bj + 1) < fuel)%nat →
  for_upto fuel bi ei (λ i, for_upto fuel bj ej (λ j s, op s i j)) s
  = run_cells op (region_cells bi ei bj ej) s.
Proof.
  intros Hbi Hei Hbj Hej Hfi Hfj.
  rewrite for_upto_run_seq by assumption.
  unfold run_cells, region_cells. rewrite run_seq_bind.
  apply run_seq_ext. intros s' i.
  rewrite for_upto_run_seq by assumption.
  rewrite run_seq_bind. apply run_seq_ext. intros s'' j. simpl.
  destruct (op s'' i j); reflexivity.
Qed.

(** C10: on a region with [bi <= ei < ni_] and [bj <= ej < nj_], and with
    fuel for the tests of the two loops, [stream(bi, ei, bj, ej)] and
    [collide_and_bound(mmap, cman, bi, ei, bj, ej)] are the per-cell
    operation run over the list of the cells of the region; that list holds
    exactly the cells with [bi <= i <= ei] and [bj <= j <= ej], both ends
    included, each once, rows first and columns within a row.  The
    whole-grid overloads are the region overloads at
    [(0, ni_ - 1, 0, nj_ - 1)]. *)
Theorem region_sweeps_row_major (fuel : nat) st cman mmap (bi ei bj ej : Z) :
  is_unsigned (ni_ st.2) → is_unsigned (nj_ st.2) →
  0 ≤ bi ≤ ei → ei < ni_ st.2 → 0 ≤ bj ≤ ej → ej < nj_ st.2 →
  (Z.to_nat (ei - bi + 1) < fuel)%nat → (Z.to_nat (ej - bj + 1) < fuel)%nat →
  stream_region fuel st bi ei bj ej
    = run_cells stream_ij (region_cells bi ei bj ej) st ∧
  collide_and_bound_region fuel cman (st, mmap) bi ei bj ej
    = run_cells (collide_and_bound_ij cman) (region_cells bi ei bj ej) (st, mmap) ∧
  (∀ i j, (i, j) ∈ region_cells bi ei bj ej ↔ bi ≤ i ≤ ei ∧ bj ≤ j ≤ ej) ∧
  NoDup (region_cells bi ei bj ej) ∧
  StronglySorted row_major_lt (region_cells bi ei bj ej) ∧
  stream fuel st = stream_region fuel st 0 (ni_ st.2 - 1) 0 (nj_ st.2 - 1) ∧
  collide_and_bound fuel cman (st, mmap)
    = collide_and_bound_region fuel cman (st, mmap) 0 (ni_ st.2 - 1) 0 (nj_ st.2 - 1).
Proof.
  intros Hni Hnj Hi Hei Hj Hej Hfi Hfj. unfold is_unsigned in Hni, Hnj.
  split_and!.
  - apply (nested_loops_run_cells stream_ij); lia.
  - apply (nested_loops_run_cells (collide_and_bound_ij cman)); lia.
  - intros i j. apply elem_of_region_cells.
  - apply region_cells_NoDup.
  - apply region_cells_sorted.
  - unfold stream. rewrite !u32_small by (unfold is_unsigned; lia). reflexivity.
  - unfold collide_and_bound. simpl.
    rewrite !u32_small by (unfold is_unsigned; lia). reflexivity.
Qed.

(** With [ni_] or [nj_] zero the upper end [ni_ - 1] or [nj_ - 1] wraps
    around to [UINT_MAX], and the whole-grid sweep never returns: the loop
    over the rows, or the loop over the columns of row 0, has no end. *)
Lemma stream_empty_never_returns (fuel : nat) st st' :
  is_unsigned (nj_ st.2) → ni_ st.2 = 0 ∨ nj_ st.2 = 0 →
  stream fuel st ≠ Ok st'.
Proof.
  intros Hnj [Hzero|Hzero]; unfold stream, stream_region; rewrite Hzero.
  - apply for_upto_UINT_MAX. unfold is_unsigned. lia.
  - apply for_upto_first_stuck.
    + pose proof (u32_range (ni_ st.2 - 1)) as Hi. unfold is_unsigned in Hi. lia.
    + intros s'. apply for_upto_UINT_MAX. unfold is_unsigned. lia.
Qed.

(** C4, as the code has it: on the lattice that [Lattice()] builds, which
    has no cell, [stream()] and [collide_and_bound(mmap, cman)] do not
    return at once.  Their loops run up to [UINT_MAX], and their first
    step is the per-cell operation on the cell (0, 0), which indexes the
    empty vector of node descriptors. *)
Theorem whole_grid_on_empty_lattice `{!SimpleMemPool D P}
    (fuel : nat) (h : heap) cman mmap :
  stream (Datatypes.S fuel) (h, Lattice_default)
    = stream_ij (h, Lattice_default) 0 0 ∧
  stream_ij (h, Lattice_default) 0 0 = Fault OutOfRange ∧
  collide_and_bound (Datatypes.S fuel) cman ((h, Lattice_default), mmap)
    = collide_and_bound_ij cman ((h, Lattice_default), mmap) 0 0 ∧
  collide_and_bound_ij cman ((h, Lattice_default), mmap) 0 0 = Fault OutOfRange ∧
  (∀ st', stream fuel (h, Lattice_default) ≠ Ok st').
Proof.
  split_and!; try reflexivity.
  intros st'. apply stream_empty_never_returns.
  - unfold is_unsigned. simpl. lia.
  - by left.
Qed.

End Sweeps.

(** ** Construction *)


Lemma length_mjoin_replicate {A} (q : list A) (cells : nat) :
  length (mjoin (replicate cells q)) = (cells * length q)%nat.
Proof.
  induction cells as [|cells IH]; simpl; [reflexivity|].
  rewrite length_app, IH. reflexivity.
Qed.

(** The flat index of a cell that is in range, when the populations fit
    the range of [unsigned]. *)
Lemma cell_index_bound (ni nj i j : Z) :
  0 ≤ i < ni → 0 ≤ j < nj → 0 ≤ i * nj + j < ni * nj.
Proof. intros Hi Hj. nia. Qed.

Section Construction.
Context {D P MM CM : Type} `{!SimpleMemPool D P, !AbstractNodeDesc D P MM CM}.
Implicit Types (st : state D P) (h : heap).

(** When [ni * nj * 9] fits an [unsigned], the constructor returns: the
    two pointers own two fresh arrays, the current one filled cell by cell
    with the populations at rest, the next one as allocated, and every node
    handle is null.  The rest of the store is as before. *)
Lemma Lattice_new_Ok h (ni nj : Z) (rho : float) :
  is_unsigned ni → is_unsigned nj → ni * nj * 9 < 2 ^ 32 →
  ∃ (h' : heap) (a b : loc),
    Lattice_new h ni nj rho
    = Ok (h', {| ni_ := ni; nj_ := nj; spf_ := Some a; spftemp_ := Some b;
                 node_descs_ := replicate (Z.to_nat (ni * nj)) None;
                 mem_pool_ := pool_new (max_node_desc_size * ni * nj) |}) ∧
    a ≠ b ∧ h !! a = None ∧ h !! b = None ∧
    h' !! a = Some (mjoin (replicate (Z.to_nat (ni * nj)) (quiescent rho))) ∧
    h' !! b = Some (replicate (Z.to_nat (ni * nj * 9)) None) ∧
    (∀ l, l ≠ a → l ≠ b → h' !! l = h !! l).
Proof.
  intros Hni Hnj Hfit. unfold is_unsigned in Hni, Hnj.
  assert (Hcells : 0 ≤ ni * nj) by nia.
  unfold Lattice_new, new_array, num_k.
  rewrite (u32_small (ni * nj)) by (unfold is_unsigned; lia).
  rewrite (u32_small (ni * nj * 9)) by (unfold is_unsigned; lia).
  set (n := Z.to_nat (ni * nj * 9)).
  set (a := fresh (dom h)).
  set (h1 := <[a := replicate n None]> h).
  set (b := fresh (dom h1)).
  set (h2 := <[b := replicate n None]> h1).
  assert (Ha : h !! a = None) by (apply not_elem_of_dom, is_fresh).
  assert (Hb : h1 !! b = None) by (apply not_elem_of_dom, is_fresh).
  assert (Hab : a ≠ b).
  { intros Heq. rewrite <- Heq in Hb. unfold h1 in Hb.
    rewrite lookup_insert_eq in Hb. discriminate. }
  assert (Hb' : h !! b = None).
  { unfold h1 in Hb. by rewrite lookup_insert_ne in Hb. }
  assert (H2a : h2 !! a = Some (replicate n None)).
  { unfold h2, h1. rewrite lookup_insert_ne by congruence. apply lookup_insert_eq. }
  assert (H2b : h2 !! b = Some (replicate n None)).
  { unfold h2. apply lookup_insert_eq. }
  assert (H2l : ∀ l, l ≠ a → l ≠ b → h2 !! l = h !! l).
  { intros l Hla Hlb. unfold h2, h1. by rewrite !lookup_insert_ne. }
  clearbody h2 b a. clear h1 Hb.
  unfold init_f_. simpl. destruct (decide (ni * nj = 0)) as [Hzero|Hcell].
  - exists h2, a, b. split_and!; try done.
    rewrite H2a. unfold n. rewrite Hzero. reflexivity.
  - rewrite H2a. rewrite length_replicate. unfold num_k.
    destruct (decide (9 * (ni * nj) ≤ Z.of_nat n)) as [_|Hn]; [|unfold n in Hn; lia].
    eexists _, a, b. split_and!; try done.
    + rewrite lookup_insert_eq. f_equal.
      rewrite drop_ge by (rewrite length_replicate; unfold n; lia).
      apply app_nil_r.
    + by rewrite lookup_insert_ne by congruence.
    + intros l Hla Hlb. rewrite lookup_insert_ne by congruence. by apply H2l.
Qed.

End Construction.

(** Over the rationals a sum does not depend on the order of its terms. *)
Lemma foldl_Qplus (qs : list Q) (a : Q) :
  (foldl Qplus a qs == a + foldr Qplus 0 qs)%Q.
Proof.
  revert a. induction qs as [|q qs IH]; intros a; simpl.
  - ring.
  - rewrite IH. ring.
Qed.

Lemma foldr_Qplus_perm (qs qs' : list Q) :
  qs ≡ₚ qs' → (foldr Qplus 0 qs == foldr Qplus 0 qs')%Q.
Proof.
  induction 1 as [|q qs qs' _ IH|q q' qs|qs qs' qs'' _ IH1 _ IH2]; simpl.
  - reflexivity.
  - by rewrite IH.
  - ring.
  - by rewrite IH1.
Qed.

Lemma ssum_Q_perm (qs qs' : list Q) : qs ≡ₚ qs' → (ssum qs == ssum qs')%Q.
Proof.
  intros Hperm. unfold ssum. cbn [sadd of_Z Q_scalar].
  rewrite !foldl_Qplus. by rewrite (foldr_Qplus_perm _ _ Hperm).
Qed.

Section Quiescent.
Context {D P MM CM : Type} `{!SimpleMemPool D P, !AbstractNodeDesc D P MM CM}.
Implicit Types (st : state D P) (h : heap).

Lemma length_quiescent (rho : float) : length (quiescent rho) = 9%nat.
Proof. reflexivity. Qed.

(** A weight is read at every direction below 9. *)
Lemma w_in_range (k : Z) : 0 ≤ k < 9 → ∃ wk, w k = Ok wk ∧ w_ !! Z.to_nat k = Some wk.
Proof.
  intros Hk. unfold w, table_at. rewrite bool_decide_eq_true_2 by lia.
  destruct (lookup_lt_is_Some_2 w_ (Z.to_nat k)) as [wk Hwk].
  { change (length w_) with 9%nat. lia. }
  exists wk. by rewrite Hwk.
Qed.

(** The place [f_(i, j, k)] designates when the cell is in range and the
    populations fit the range of [unsigned]: element [9 (i nj_ + j) + k]
    of the current buffer. *)
Lemma f__in_range (L : Lattice D P) (a : loc) (i j k : Z) :
  spf_ L = Some a → 0 ≤ i → 0 ≤ j < nj_ L → (i * nj_ L + j) * 9 < 2 ^ 32 →
  f_ L i j k = Ok (a, 9 * (i * nj_ L + j) + k).
Proof.
  intros Ha Hi Hj Hfit. unfold f_, pf_, num_k. rewrite Ha. simpl.
  assert (0 ≤ i * nj_ L) by nia.
  rewrite (u32_small (i * nj_ L)) by (unfold is_unsigned; lia).
  rewrite (u32_small (i * nj_ L + j)) by (unfold is_unsigned; lia).
  rewrite u32_small by (unfold is_unsigned; lia).
  do 2 f_equal. lia.
Qed.


End Quiescent.

(** ** Node handles *)

Section Handles.
Context {D P MM CM : Type} `{!SimpleMemPool D P, !AbstractNodeDesc D P MM CM}.
Implicit Types (st : state D P) (L : Lattice D P) (h : heap) (cman : CM) (mmap : MM).

(** The index of a cell in [node_descs_]. *)
Lemma node_index_in_range L (i j : Z) :
  0 ≤ i → 0 ≤ j < nj_ L → nj_ L * i + j < 2 ^ 32 →
  u32 (u32 (nj_ L * i) + j) = nj_ L * i + j.
Proof.
  intros Hi Hj Hfit. assert (0 ≤ nj_ L * i) by nia.
  rewrite (u32_small (nj_ L * i)) by (unfold is_unsigned; lia).
  apply u32_small. unfold is_unsigned. lia.
Qed.

(** The per-cell operations go through the handle whatever it holds. *)
Lemma stream_ij_null st (i j : Z) :
  node_desc st.2 i j = Fault NullDeref → stream_ij st i j = Fault NullDeref.
Proof. unfold stream_ij. by intros ->. Qed.

Lemma collide_and_bound_ij_null st cman mmap (i j : Z) :
  node_desc st.2 i j = Fault NullDeref →
  collide_and_bound_ij cman (st, mmap) i j = Fault NullDeref.
Proof. unfold collide_and_bound_ij. simpl. by intros ->. Qed.

Lemma stream_ij_assigned st (d : D) (i j : Z) :
  node_desc st.2 i j = Ok d → stream_ij st i j = nd_stream d st i j.
Proof. unfold stream_ij. by intros ->. Qed.

Lemma collide_and_bound_ij_assigned st cman mmap (d : D) (i j : Z) :
  node_desc st.2 i j = Ok d →
  collide_and_bound_ij cman (st, mmap) i j = nd_collide_and_bound d st mmap cman i j.
Proof. unfold collide_and_bound_ij. simpl. by intros ->. Qed.

(** A whole-grid sweep of a lattice with a cell begins at the cell (0, 0). *)
Lemma stream_first_cell (fuel : nat) st (e : fault) :
  is_unsigned (ni_ st.2) → is_unsigned (nj_ st.2) →
  stream_ij st 0 0 = Fault e → stream (Datatypes.S fuel) st = Fault e.
Proof.
  intros Hni Hnj Hcell. unfold stream, stream_region. simpl.
  pose proof (u32_range (ni_ st.2 - 1)) as Hi.
  pose proof (u32_range (nj_ st.2 - 1)) as Hj.
  unfold is_unsigned in Hi, Hj.
  rewrite !bool_decide_eq_true_2 by lia.
  rewrite Hcell. reflexivity.
Qed.

Lemma collide_and_bound_first_cell (fuel : nat) st cman mmap (e : fault) :
  is_unsigned (ni_ st.2) → is_unsigned (nj_ st.2) →
  collide_and_bound_ij cman (st, mmap) 0 0 = Fault e →
  collide_and_bound (Datatypes.S fuel) cman (st, mmap) = Fault e.
Proof.
  intros Hni Hnj Hcell. unfold collide_and_bound, collide_and_bound_region. simpl.
  pose proof (u32_range (ni_ st.2 - 1)) as Hi.
  pose proof (u32_range (nj_ st.2 - 1)) as Hj.
  unfold is_unsigned in Hi, Hj.
  rewrite !bool_decide_eq_true_2 by lia.
  rewrite Hcell. reflexivity.
Qed.

(** C9: when [ni * nj * 9] fits an [unsigned], the lattice that
    [Lattice(ni, nj, rho)] returns has a null handle at every cell, and
    there [stream(i, j)] and [collide_and_bound(mmap, cman, i, j)]
    dereference the null pointer.  [set_node_desc] on a cell leaves the
    handle of every other cell null, and makes its own cell hold the new
    node when the pool hands one out.  With at least one cell, the
    whole-grid [stream()] and [collide_and_bound(mmap, cman)] of the new
    lattice dereference a null handle. *)
Theorem new_lattice_null_handles h (ni nj : Z) (rho : float) :
  is_unsigned ni → is_unsigned nj → ni * nj * 9 < 2 ^ 32 →
  ∃ st, Lattice_new h ni nj rho = Ok st ∧
    (∀ i j, 0 ≤ i < ni → 0 ≤ j < nj →
       node_desc st.2 i j = Fault NullDeref ∧
       stream_ij st i j = Fault NullDeref ∧
       (∀ cman mmap, collide_and_bound_ij cman (st, mmap) i j = Fault NullDeref) ∧
       (∀ ndebug L' i0 j0 nd, 0 ≤ i0 < ni → 0 ≤ j0 < nj →
          set_node_desc ndebug st.2 i0 j0 nd = Ok L' →
          ((i0, j0) ≠ (i, j) → node_desc L' i j = Fault NullDeref) ∧
          ((pool_allocate (mem_pool_ st.2) nd).2 = true →
           node_desc L' i0 j0 = Ok nd))) ∧
    (1 ≤ ni → 1 ≤ nj → ∀ fuel cman mmap,
       stream (Datatypes.S fuel) st = Fault NullDeref ∧
       collide_and_bound (Datatypes.S fuel) cman (st, mmap) = Fault NullDeref).
Proof.
  intros Hni Hnj Hfit.
  destruct (Lattice_new_Ok h ni nj rho Hni Hnj Hfit) as (h' & a & b & Hnew & _).
  eexists. split; [exact Hnew|]. clear Hnew.
  set (L := {| ni_ := ni; nj_ := nj; spf_ := Some a; spftemp_ := Some b;
               node_descs_ := replicate (Z.to_nat (ni * nj)) None;
               mem_pool_ := pool_new (max_node_desc_size * ni * nj) |}).
  unfold is_unsigned in Hni, Hnj.
  assert (Hnull : ∀ i j, 0 ≤ i < ni → 0 ≤ j < nj → node_desc L i j = Fault NullDeref).
  { intros i j Hi Hj. unfold node_desc.
    rewrite node_index_in_range by (simpl; nia). simpl.
    rewrite lookup_replicate_2 by nia. reflexivity. }
  split.
  - intros i j Hi Hj. split_and!.
    + by apply Hnull.
    + by apply stream_ij_null, Hnull.
    + intros cman mmap. by apply collide_and_bound_ij_null, Hnull.
    + intros ndebug L' i0 j0 nd Hi0 Hj0. unfold set_node_desc. cbn [snd].
      destruct (negb ndebug && negb (pool_allocate (mem_pool_ L) nd).2);
        [discriminate|].
      rewrite node_index_in_range by (simpl; nia).
      case_decide as Hlen; [|discriminate]. intros [= <-].
      unfold node_desc. cbn [nj_ node_descs_].
      rewrite !(node_index_in_range L) by (simpl; nia).
      unfold L in *. cbn [nj_ node_descs_ mem_pool_] in *.
      split.
      * intros Hne.
        rewrite list_lookup_insert_ne.
        -- rewrite lookup_replicate_2; [reflexivity|].
           pose proof (cell_index_bound ni nj i j Hi Hj). lia.
        -- intros Heq. apply Hne.
           assert (0 ≤ nj * i0 ∧ 0 ≤ nj * i) as [? ?] by nia.
           assert (Hflat : nj * i0 + j0 = nj * i + j) by lia.
           assert (i0 = i) as ->.
           { destruct (Z.lt_trichotomy i0 i) as [Hlt|[?|Hgt]]; [|done|]; exfalso.
             - assert (nj * (i0 + 1) ≤ nj * i) by nia. lia.
             - assert (nj * (i + 1) ≤ nj * i0) by nia. lia. }
           f_equal. lia.
      * intros ->. rewrite list_lookup_insert_eq by exact Hlen. reflexivity.
  - intros Hi Hj fuel cman mmap. split.
    + apply stream_first_cell; [done|done|].
      apply stream_ij_null, Hnull; lia.
    + apply collide_and_bound_first_cell; [done|done|].
      apply collide_and_bound_ij_null, Hnull; lia.
Qed.

End Handles.

(** ** The public population accessors *)

Section Accessors.
Context {D P : Type}.
Implicit Types (st : state D P).

(** The element [f(i, j, k)] reads when the cell is in range and no
    product wraps around: [ni_ (i nj_ + j) + k], with the number of rows
    where [f_] has the number of directions. *)
Lemma f_in_range st (a : loc) (i j k : Z) :
  spf_ st.2 = Some a → 0 ≤ i → 0 ≤ j → 0 ≤ k → 0 ≤ ni_ st.2 → 0 ≤ nj_ st.2 →
  ni_ st.2 * (i * nj_ st.2 + j) + k < 2 ^ 32 → i * nj_ st.2 + j < 2 ^ 32 →
  f st i j k = load st.1 (a, ni_ st.2 * (i * nj_ st.2 + j) + k).
Proof.
  intros Ha Hi Hj Hk Hni Hnj Hfit Hcell. unfold f. rewrite Ha. simpl.
  assert (0 ≤ i * nj_ st.2) by nia.
  rewrite (u32_small (i * nj_ st.2)) by (unfold is_unsigned; lia).
  rewrite (u32_small (i * nj_ st.2 + j)) by (unfold is_unsigned; lia).
  assert (0 ≤ ni_ st.2 * (i * nj_ st.2 + j)) by nia.
  rewrite (u32_small (ni_ st.2 * _)) by (unfold is_unsigned; lia).
  rewrite u32_small by (unfold is_unsigned; lia).
  reflexivity.
Qed.

End Accessors.

(** C1, as the code has it.  On the 2 x 2 lattice built with density 1.0,
    [f_(0, 1, 0)] designates element 9 of the current buffer, which holds
    4/9, the rest population of the cell (0, 1); [f(0, 1, 0)] reads element
    2 * (0 * 2 + 1) + 0 = 2, which holds 1/9, the population of the cell
    (0, 0) in direction 2.  [ftemp] and [ft_] differ in the same way: they
    designate elements 2 and 9 of the next buffer.  On the 20 x 1 lattice
    [f(19, 0, 0)] reads element 380 of a buffer of 180. *)
Theorem f_reads_another_element :
  (∃ (st : state bool Z) (a b : loc),
     Lattice_new ∅ 2 2 1%float = Ok st ∧
     spf_ st.2 = Some a ∧ spftemp_ st.2 = Some b ∧
     f_ st.2 0 1 0 = Ok (a, 9) ∧
     (p ← f_ st.2 0 1 0; load st.1 p) = Ok (4 / 9)%float ∧
     f st 0 1 0 = load st.1 (a, 2) ∧
     f st 0 1 0 = Ok (1 / 9)%float ∧
     (p ← f_ st.2 0 0 2; load st.1 p) = Ok (1 / 9)%float ∧
     ft_ st.2 0 1 0 = Ok (b, 9) ∧
     ftemp st 0 1 0 = load st.1 (b, 2)) ∧
  (∃ st : state bool Z,
     Lattice_new ∅ 20 1 1%float = Ok st ∧
     f st 19 0 0 = Fault OutOfRange ∧
     (p ← f_ st.2 19 0 0; load st.1 p) = Ok (4 / 9)%float).
Proof.
  split.
  - eexists _, _, _. split; [vm_compute; reflexivity|].
    split_and!; vm_compute; reflexivity.
  - eexists. split; [vm_compute; reflexivity|].
    split_and!; vm_compute; reflexivity.
Qed.

(** ** The direction vectors and the weights *)

(** C6, as the code has it.  [pc(k)] is the start of row [2 k] of the
    table, so [c(k, comp)] reads the double at offset [4 k + comp]: the
    component of direction [2 k] for [k] up to 4 (for direction 1 the
    first component of direction 2, which is 0 and not 1), and a double
    past the 18 of the table for [k] from 5 to 8.  [w(k)] is the weight of
    direction [k] for every [k] below 9. *)
Theorem c_reads_row_2k :
  Forall (λ k, Forall (λ comp,
            c k comp = table_at (row_major lat_vecs_) (4 * k + comp)) [0; 1])
    (seqZ 0 9) ∧
  Forall (λ k, c k 0 = (v ← table_at lat_vecs_ (2 * k); Ok v.1) ∧
               c k 1 = (v ← table_at lat_vecs_ (2 * k); Ok v.2) ∧
               is_Ok (c k 0) = true)
    [0; 1; 2; 3; 4] ∧
  (c 1 0 = Ok 0%float ∧ fst <$> lat_vecs_ !! 1%nat = Some 1%float) ∧
  Forall (λ k, c k 0 = Fault OutOfRange ∧ c k 1 = Fault OutOfRange) [5; 6; 7; 8] ∧
  Forall (λ k, ∃ wk, w k = Ok wk ∧ w_ !! Z.to_nat k = Some wk) (seqZ 0 9).
Proof.
  change (seqZ 0 9) with [0; 1; 2; 3; 4; 5; 6; 7; 8].
  split_and!; [each_case..|].
  apply Forall_forall. intros k Hk. apply w_in_range.
  repeat (apply elem_of_cons in Hk as [->|Hk]; [lia|]). by apply elem_of_nil in Hk.
Qed.

(** ** The destructor *)

Section Teardown.
Context {D P MM CM : Type} `{!AbstractNodeDesc D P MM CM}.
Implicit Types (st : state D P) (hs : list (option D)) (ds : list D).

(** No exception leaves the handler. *)
Lemma catch_all_no_throw (r : Res ()) (type what : string) :
  catch_all r ≠ Fault (Thrown type what).
Proof. destruct r as [[]|[]]; discriminate. Qed.

Lemma Lattice_dtor_no_throw st (type what : string) :
  (Lattice_dtor st).2 ≠ Fault (Thrown type what).
Proof.
  unfold Lattice_dtor. simpl.
  pose proof (catch_all_no_throw (destroy_node_descs (node_descs_ st.2)).2 type what)
    as Hc.
  destruct (catch_all _) as [[]|e]; simpl; [discriminate|].
  intros [= ->]. by apply Hc.
Qed.

(** When every handle holds a node whose destructor returns, the loop
    calls the destructor of every node, in order. *)
Lemma destroy_node_descs_all ds :
  Forall (λ d, nd_destroy d = Ok ()) ds →
  destroy_node_descs (Some <$> ds) = (ds, Ok ()).
Proof.
  induction 1 as [|d ds Hd _ IH]; [reflexivity|].
  rewrite fmap_cons. cbn [destroy_node_descs]. rewrite Hd, IH. reflexivity.
Qed.

(** The exception of a node's destructor leaves the loop: the handles
    after that node are not visited. *)
Lemma destroy_node_descs_throw ds (d : D) hs (type what : string) :
  Forall (λ d, nd_destroy d = Ok ()) ds →
  nd_destroy d = Fault (Thrown type what) →
  destroy_node_descs ((Some <$> ds) ++ Some d :: hs)
  = (ds ++ [d], Fault (Thrown type what)).
Proof.
  intros Hds Hd. induction Hds as [|d' ds Hd' _ IH].
  - simpl. rewrite Hd. reflexivity.
  - rewrite fmap_cons. cbn [app destroy_node_descs]. rewrite Hd', IH. reflexivity.
Qed.

End Teardown.

(** C5, as the code has it.  With two nodes, the first of which throws
    from its destructor, [~Lattice()] calls the destructor of the first
    node only: the [try] block holds the whole loop, so the exception ends
    it, and the second node, whose destructor would return, is never
    destroyed.  The exception does not leave [~Lattice()], which returns
    with the store as it was (both pointers are null here). *)
Theorem dtor_stops_at_first_throw (h : heap) :
  nd_destroy false = Fault (Thrown "std::runtime_error" "node") ∧
  nd_destroy true = Ok () ∧
  Lattice_dtor (h, mkLattice 1 2 None None [Some false; Some true] 0)
  = ([false], Ok h).
Proof. split_and!; reflexivity. Qed.

(** ** Equilibrium *)

(** Over the rationals the nine outputs of the standard functor add up
    to the density, in whatever order they are taken, for every density and
    velocity; and so do those of the He-Luo functor, for every reference
    density. *)
Lemma equilibrium_outputs_exact (rho ux uy : Q) (rho_o : Z) :
  (∃ fs : list Q,
     equilibrium_outputs IncompFlowEqFunct_f_ (mkMultiscaleMap rho (ux, uy)) = Ok fs ∧
     ∀ fs', fs' ≡ₚ fs → (ssum fs' == rho)%Q) ∧
  (∃ fs : list Q,
     equilibrium_outputs (IncompFlowHLEqFunct_f_ rho_o) (mkMultiscaleMap rho (ux, uy))
     = Ok fs ∧
     ∀ fs', fs' ≡ₚ fs → (ssum fs' == rho)%Q).
Proof.
  split; eexists; (split;
    [ unfold equilibrium_outputs, AbstractEqFunct_f,
        IncompFlowEqFunct_f_, IncompFlowHLEqFunct_f_;
      change (seqZ 0 num_k) with [0; 1; 2; 3; 4; 5; 6; 7; 8];
      cbn -[Qplus Qmult Qminus Qdiv inject_Z]; reflexivity
    | intros fs' Hperm; rewrite (ssum_Q_perm _ _ Hperm);
      unfold ssum, velocity_terms;
      cbn -[Qplus Qmult Qminus Qdiv inject_Z]; field ]).
Qed.

(** ** Instances of the statements above *)



(** [new_lattice_null_handles] on a 2 x 3 lattice: streaming the cell
    (1, 2) of the new lattice. *)
Lemma new_lattice_null_handles_2x3 :
  is_unsigned 2 ∧ is_unsigned 3 ∧ 2 * 3 * 9 < 2 ^ 32 ∧
  ∃ st : state bool Z,
    Lattice_new ∅ 2 3 1%float = Ok st ∧
    stream_ij st 1 2 = Fault NullDeref ∧
    stream 1 st = Fault NullDeref.
Proof.
  assert (H2 : is_unsigned 2) by (unfold is_unsigned; lia).
  assert (H3 : is_unsigned 3) by (unfold is_unsigned; lia).
  assert (Hfit : 2 * 3 * 9 < 2 ^ 32) by lia.
  split_and!; try assumption.
  destruct (new_lattice_null_handles (D:=bool) (P:=Z) ∅ 2 3 1%float H2 H3 Hfit)
    as (st & Hnew & Hcell & Hgrid).
  exists st. split_and!.
  - exact Hnew.
  - apply (Hcell 1 2); lia.
  - apply (Hgrid ltac:(lia) ltac:(lia) 0%nat () []).
Defined.

(** [region_sweeps_row_major] on a 2 x 3 lattice whose six cells hold a
    node, over the region of rows 0 to 1 and columns 1 to 2: the multiscale
    map of the test double has recorded the four cells, latest first. *)
Lemma region_sweeps_row_major_2x3 :
  is_unsigned 2 ∧ is_unsigned 3 ∧ (Z.to_nat (1 - 0 + 1) < 4)%nat ∧
  (Z.to_nat (2 - 1 + 1) < 4)%nat ∧
  region_cells 0 1 1 2 = [(0, 1); (0, 2); (1, 1); (1, 2)] ∧
  collide_and_bound_region 4 () (mock_2x3, []) 0 1 1 2
  = Ok (mock_2x3, [(1, 2); (1, 1); (0, 2); (0, 1)]).
Proof.
  assert (H2 : is_unsigned 2) by (unfold is_unsigned; lia).
  assert (H3 : is_unsigned 3) by (unfold is_unsigned; lia).
  split_and!; [assumption|assumption|simpl; lia|simpl; lia|reflexivity|].
  destruct (region_sweeps_row_major 4 mock_2x3 () [] 0 1 1 2)
    as (_ & Hcollide & _); [assumption|assumption|simpl; lia..|].
  etrans; [exact Hcollide|reflexivity].
Defined.

(** * Further properties of the lattice *)

(** ** The layout of the populations *)

Lemma u32_add_idemp_l (x y : Z) : u32 (u32 x + y) = u32 (x + y).
Proof. unfold u32. apply Zplus_mod_idemp_l. Qed.

Lemma u32_mul_idemp_l (x y : Z) : u32 (u32 x * y) = u32 (x * y).
Proof. unfold u32. apply Zmult_mod_idemp_l. Qed.

Lemma u32_mul_idemp_r (x y : Z) : u32 (x * u32 y) = u32 (x * y).
Proof. unfold u32. apply Zmult_mod_idemp_r. Qed.

(** Two cells in range with the same flat index are the same cell. *)
Lemma cell_index_inj (nj i j i' j' : Z) :
  0 ≤ i → 0 ≤ j < nj → 0 ≤ i' → 0 ≤ j' < nj →
  i * nj + j = i' * nj + j' → i = i' ∧ j = j'.
Proof.
  intros Hi Hj Hi' Hj' Hflat.
  assert (i = i') as ->.
  { destruct (Z.lt_trichotomy i i') as [Hlt|[?|Hgt]]; [|done|]; exfalso.
    - assert ((i + 1) * nj ≤ i' * nj) by nia. lia.
    - assert ((i' + 1) * nj ≤ i * nj) by nia. lia. }
  split; [reflexivity|lia].
Qed.

Section Layout.
Context {D P : Type}.
Implicit Types (st : state D P) (L : Lattice D P).

Lemma ft__in_range L (b : loc) (i j k : Z) :
  spftemp_ L = Some b → 0 ≤ i → 0 ≤ j < nj_ L → (i * nj_ L + j) * 9 < 2 ^ 32 →
  ft_ L i j k = Ok (b, 9 * (i * nj_ L + j) + k).
Proof.
  intros Hb Hi Hj Hfit. unfold ft_, pft_, num_k. rewrite Hb. simpl.
  assert (0 ≤ i * nj_ L) by nia.
  rewrite (u32_small (i * nj_ L)) by (unfold is_unsigned; lia).
  rewrite (u32_small (i * nj_ L + j)) by (unfold is_unsigned; lia).
  rewrite u32_small by (unfold is_unsigned; lia).
  do 2 f_equal. lia.
Qed.

(** X1: for a cell in range and indices that do not wrap around, the public
    [f(i, j, k)] reads element [ni_ (i nj_ + j) + k] of the current buffer
    and the private [f_(i, j, k)] designates element [9 (i nj_ + j) + k];
    the two are the same element exactly when [ni_] is 9 or the cell is
    (0, 0).  [ftemp] and [ft_] stand in the same relation on the next
    buffer. *)
Theorem f_reads_f__element_iff st (a b : loc) (i j k : Z) :
  spf_ st.2 = Some a → spftemp_ st.2 = Some b →
  0 ≤ i → 0 ≤ j < nj_ st.2 → 0 ≤ k → 0 ≤ ni_ st.2 →
  ni_ st.2 * (i * nj_ st.2 + j) + k < 2 ^ 32 →
  9 * (i * nj_ st.2 + j) + k < 2 ^ 32 →
  f st i j k = load st.1 (a, ni_ st.2 * (i * nj_ st.2 + j) + k) ∧
  f_ st.2 i j k = Ok (a, 9 * (i * nj_ st.2 + j) + k) ∧
  ftemp st i j k = load st.1 (b, ni_ st.2 * (i * nj_ st.2 + j) + k) ∧
  ft_ st.2 i j k = Ok (b, 9 * (i * nj_ st.2 + j) + k) ∧
  (ni_ st.2 * (i * nj_ st.2 + j) + k = 9 * (i * nj_ st.2 + j) + k
     ↔ ni_ st.2 = 9 ∨ (i = 0 ∧ j = 0)).
Proof.
  intros Ha Hb Hi Hj Hk Hni Hfit Hfit9.
  assert (Hcell : 0 ≤ i * nj_ st.2) by nia.
  assert (Hidx : ∀ p, spf_ st.2 = Some p ∨ spftemp_ st.2 = Some p →
    u32 (u32 (ni_ st.2 * u32 (u32 (i * nj_ st.2) + j)) + k)
    = ni_ st.2 * (i * nj_ st.2 + j) + k).
  { intros _ _.
    rewrite (u32_small (i * nj_ st.2)) by (unfold is_unsigned; lia).
    rewrite (u32_small (i * nj_ st.2 + j)) by (unfold is_unsigned; lia).
    assert (0 ≤ ni_ st.2 * (i * nj_ st.2 + j)) by nia.
    rewrite (u32_small (ni_ st.2 * _)) by (unfold is_unsigned; lia).
    apply u32_small. unfold is_unsigned. lia. }
  split_and!.
  - unfold f. rewrite Ha. simpl. by rewrite (Hidx a) by auto.
  - apply f__in_range; (assumption || lia).
  - unfold ftemp. rewrite Hb. simpl. by rewrite (Hidx b) by auto.
  - apply ft__in_range; (assumption || lia).
  - split.
    + intros Heq. assert (Hz : (ni_ st.2 - 9) * (i * nj_ st.2 + j) = 0) by lia.
      apply Z.mul_eq_0 in Hz as [Hz|Hz]; [left; lia|right].
      assert (i * nj_ st.2 = 0 ∧ j = 0) as [Hz' ->] by lia.
      split; [|reflexivity]. nia.
    + intros [->|[-> ->]]; lia.
Qed.

(** X2: on a lattice whose [ni_ * nj_ * 9] populations fit an [unsigned],
    [f_] sends every cell in range and direction below 9 to an element
    inside the current buffer of [ni_ * nj_ * 9] doubles, and two different
    triples to two different elements. *)
Theorem f__elements_distinct L (a : loc) (i j k i' j' k' : Z) :
  spf_ L = Some a → ni_ L * nj_ L * 9 < 2 ^ 32 →
  0 ≤ i < ni_ L → 0 ≤ j < nj_ L → 0 ≤ k < 9 →
  0 ≤ i' < ni_ L → 0 ≤ j' < nj_ L → 0 ≤ k' < 9 →
  ∃ off off' : Z,
    f_ L i j k = Ok (a, off) ∧ f_ L i' j' k' = Ok (a, off') ∧
    0 ≤ off < ni_ L * nj_ L * 9 ∧
    (off = off' ↔ i = i' ∧ j = j' ∧ k = k').
Proof.
  intros Ha Hfit Hi Hj Hk Hi' Hj' Hk'.
  pose proof (cell_index_bound (ni_ L) (nj_ L) i j Hi Hj) as Hc.
  pose proof (cell_index_bound (ni_ L) (nj_ L) i' j' Hi' Hj') as Hc'.
  exists (9 * (i * nj_ L + j) + k), (9 * (i' * nj_ L + j') + k').
  split_and!.
  - apply f__in_range; (assumption || lia).
  - apply f__in_range; (assumption || lia).
  - lia.
  - lia.
  - split.
    + intros Heq.
      assert (Hflat : i * nj_ L + j = i' * nj_ L + j') by lia.
      destruct (cell_index_inj (nj_ L) i j i' j') as [-> ->]; lia.
    + intros (-> & -> & ->). reflexivity.
Qed.

(** X3: the accessors do not check the column.  For every [i], [j] and
    [k], a column index that is [nj_] too large addresses the cell of the
    next row: [f_], [ft_] and [node_desc] at [(i, j + nj_)] are those at
    [(i + 1, j)], wrap-around included. *)
Theorem column_overrun_is_next_row L (i j k : Z) :
  f_ L i (j + nj_ L) k = f_ L (i + 1) j k ∧
  ft_ L i (j + nj_ L) k = ft_ L (i + 1) j k ∧
  node_desc L i (j + nj_ L) = node_desc L (i + 1) j.
Proof.
  assert (Hf : u32 (u32 (i * nj_ L) + (j + nj_ L)) = u32 (u32 ((i + 1) * nj_ L) + j)).
  { rewrite !u32_add_idemp_l. f_equal. lia. }
  assert (Hn : u32 (u32 (nj_ L * i) + (j + nj_ L)) = u32 (u32 (nj_ L * (i + 1)) + j)).
  { rewrite !u32_add_idemp_l. f_equal. lia. }
  unfold f_, ft_, pf_, pft_, node_desc. rewrite Hf, Hn. done.
Qed.

End Layout.

(** ** Reading and writing through the references *)

Lemma load_store_same (h h' : heap) (p : place) (v : float) :
  store h p v = Ok h' → load h' p = Ok v.
Proof.
  unfold store, load. destruct (h !! p.1) as [buf|] eqn:Hbuf; [|discriminate].
  case_bool_decide as Hin; [|discriminate]. intros [= <-].
  rewrite lookup_insert_eq. rewrite bool_decide_eq_true_2 by lia.
  rewrite list_lookup_insert_eq by lia. reflexivity.
Qed.

Lemma load_store_other (h h' : heap) (p q : place) (v : float) :
  store h p v = Ok h' → p ≠ q → load h' q = load h q.
Proof.
  unfold store, load. destruct (h !! p.1) as [buf|] eqn:Hbuf; [|discriminate].
  case_bool_decide as Hin; [|discriminate]. intros [= <-] Hne.
  destruct (decide (p.1 = q.1)) as [Heq|Hloc].
  - rewrite <- Heq, lookup_insert_eq, Hbuf.
    case_bool_decide as Hq; [|reflexivity].
    rewrite list_lookup_insert_ne; [reflexivity|].
    intros Hoff. apply Hne. destruct p, q; simpl in *. f_equal; [done|lia].
  - by rewrite lookup_insert_ne.
Qed.

Lemma store_lookup (h h' : heap) (p : place) (v : float) :
  store h p v = Ok h' →
  ∃ buf, h !! p.1 = Some buf ∧ 0 ≤ p.2 < Z.of_nat (length buf) ∧
         h' = <[p.1 := <[Z.to_nat p.2 := Some v]> buf]> h.
Proof.
  unfold store. destruct (h !! p.1) as [buf|] eqn:Hbuf; [|discriminate].
  case_bool_decide as Hin; [|discriminate]. intros [= <-]. eauto.
Qed.

Section Shape.
Context {D P MM CM : Type} `{!SimpleMemPool D P, !AbstractNodeDesc D P MM CM}.
Implicit Types (st : state D P) (L : Lattice D P) (h : heap).

(** X4: on a lattice of the constructor's shape, an assignment through
    [f_(i, j, k)] to a cell in range succeeds and keeps the lattice object
    and its shape; the value is read back through [f_(i, j, k)], every
    other population of the current buffer and every population of the
    next buffer reads as before. *)
Theorem set_f__then_get_f_ st (v : float) (i j k : Z) :
  Lattice_shape st → 0 ≤ i < ni_ st.2 → 0 ≤ j < nj_ st.2 → 0 ≤ k < 9 →
  ∃ st', set_f_ st i j k v = Ok st' ∧ st'.2 = st.2 ∧ Lattice_shape st' ∧
    get_f_ st' i j k = Ok v ∧
    (∀ i' j' k', 0 ≤ i' < ni_ st.2 → 0 ≤ j' < nj_ st.2 → 0 ≤ k' < 9 →
       ¬ (i' = i ∧ j' = j ∧ k' = k) → get_f_ st' i' j' k' = get_f_ st i' j' k') ∧
    (∀ i' j' k', 0 ≤ i' < ni_ st.2 → 0 ≤ j' < nj_ st.2 → 0 ≤ k' < 9 →
       get_ft_ st' i' j' k' = get_ft_ st i' j' k').
Proof.
  intros (Hni & Hnj & Hfit & Hlen & a & b & bufa & bufb
          & Ha & Hb & Hab & Hbufa & Hbufb & Hla & Hlb) Hi Hj Hk.
  pose proof (cell_index_bound _ _ i j Hi Hj) as Hc.
  assert (Hf : f_ st.2 i j k = Ok (a, 9 * (i * nj_ st.2 + j) + k))
    by (apply f__in_range; (assumption || lia)).
  assert (Hstore : store st.1 (a, 9 * (i * nj_ st.2 + j) + k) v
     = Ok (<[a := <[Z.to_nat (9 * (i * nj_ st.2 + j) + k) := Some v]> bufa]> st.1)).
  { unfold store. simpl. rewrite Hbufa. by rewrite bool_decide_eq_true_2 by lia. }
  eexists (_, st.2). split_and!.
  - unfold set_f_. rewrite Hf. simpl. rewrite Hstore. reflexivity.
  - reflexivity.
  - split_and!; try assumption.
    exists a, b, (<[Z.to_nat (9 * (i * nj_ st.2 + j) + k) := Some v]> bufa), bufb.
    simpl. split_and!; try done.
    + apply lookup_insert_eq.
    + by rewrite lookup_insert_ne.
    + by rewrite length_insert.
  - unfold get_f_. simpl. rewrite Hf. simpl. by apply (load_store_same st.1).
  - intros i' j' k' Hi' Hj' Hk' Hne.
    pose proof (cell_index_bound _ _ i' j' Hi' Hj') as Hc'.
    unfold get_f_. simpl.
    rewrite (f__in_range st.2 a i' j' k') by (assumption || lia). simpl.
    apply (load_store_other st.1 _ (a, 9 * (i * nj_ st.2 + j) + k) _ v Hstore).
    intros [= Hoff]. apply Hne.
    destruct (cell_index_inj (nj_ st.2) i j i' j') as [-> ->]; lia.
  - intros i' j' k' Hi' Hj' Hk'.
    pose proof (cell_index_bound _ _ i' j' Hi' Hj') as Hc'.
    unfold get_ft_. simpl.
    rewrite (ft__in_range st.2 b) by (assumption || lia). simpl.
    apply (load_store_other st.1 _ (a, 9 * (i * nj_ st.2 + j) + k) _ v Hstore).
    intros [= Hloc _]. by apply Hab.
Qed.

(** X5: on a lattice of the constructor's shape, [in_bounds(i, j)] is
    enough for the unchecked accessors to stay in their arrays: the handle
    of the cell is an entry of [node_descs_], and for every direction below
    9 the places [f_] and [ft_] designate are elements of the current and
    of the next buffer. *)
Theorem in_bounds_accesses_in_range st (i j : Z) :
  Lattice_shape st → is_int i → is_int j → in_bounds st.2 i j = true →
  is_Some (node_descs_ st.2 !! Z.to_nat (u32 (u32 (nj_ st.2 * i) + j))) ∧
  node_desc st.2 i j ≠ Fault OutOfRange ∧
  ∀ k, 0 ≤ k < 9 →
    ∃ (p q : place) (bufp bufq : list (option float)),
      f_ st.2 i j k = Ok p ∧ spf_ st.2 = Some p.1 ∧
      st.1 !! p.1 = Some bufp ∧ 0 ≤ p.2 < Z.of_nat (length bufp) ∧
      ft_ st.2 i j k = Ok q ∧ spftemp_ st.2 = Some q.1 ∧
      st.1 !! q.1 = Some bufq ∧ 0 ≤ q.2 < Z.of_nat (length bufq).
Proof.
  intros (Hni & Hnj & Hfit & Hlen & a & b & bufa & bufb
          & Ha & Hb & Hab & Hbufa & Hbufb & Hla & Hlb) Hi Hj Hin.
  apply in_bounds_int in Hin as (Hi0 & Hin & Hj0 & Hjn).
  unfold is_int, is_unsigned in *.
  rewrite u32_small in Hin by (unfold is_unsigned; lia).
  rewrite u32_small in Hjn by (unfold is_unsigned; lia).
  pose proof (cell_index_bound (ni_ st.2) (nj_ st.2) i j) as Hc.
  assert (Hidx : u32 (u32 (nj_ st.2 * i) + j) = nj_ st.2 * i + j).
  { assert (0 ≤ nj_ st.2 * i) by nia.
    rewrite (u32_small (nj_ st.2 * i)) by (unfold is_unsigned; lia).
    apply u32_small. unfold is_unsigned. lia. }
  assert (Hsome : is_Some
    (node_descs_ st.2 !! Z.to_nat (u32 (u32 (nj_ st.2 * i) + j)))).
  { apply lookup_lt_is_Some. rewrite Hidx. lia. }
  split_and!.
  - exact Hsome.
  - unfold node_desc. destruct Hsome as [[d|] ->]; discriminate.
  - intros k Hk.
    exists (a, 9 * (i * nj_ st.2 + j) + k), (b, 9 * (i * nj_ st.2 + j) + k), bufa, bufb.
    simpl. split_and!; try done; try lia.
    + apply f__in_range; (assumption || lia).
    + apply ft__in_range; (assumption || lia).
Qed.

(** X6: the constructor gives its shape to the lattice it returns, and
    [swap_f_ptrs] and [set_node_desc] keep the shape and the two
    dimensions of a lattice that has it. *)
Theorem Lattice_shape_kept :
  (∀ h (ni nj : Z) (rho : float),
     is_unsigned ni → is_unsigned nj → ni * nj * 9 < 2 ^ 32 →
     ∃ st, Lattice_new h ni nj rho = Ok st ∧
           Lattice_shape st ∧ ni_ st.2 = ni ∧ nj_ st.2 = nj) ∧
  (∀ st, Lattice_shape st →
     Lattice_shape (swap_f_ptrs st) ∧
     ni_ (swap_f_ptrs st).2 = ni_ st.2 ∧ nj_ (swap_f_ptrs st).2 = nj_ st.2) ∧
  (∀ st (ndebug : bool) (i j : Z) (nd : D) L',
     Lattice_shape st → set_node_desc ndebug st.2 i j nd = Ok L' →
     Lattice_shape (st.1, L') ∧ ni_ L' = ni_ st.2 ∧ nj_ L' = nj_ st.2).
Proof.
  split_and!.
  - intros h ni nj rho Hni Hnj Hfit.
    destruct (Lattice_new_Ok h ni nj rho Hni Hnj Hfit)
      as (h' & a & b & Hnew & Hab & _ & _ & Ha & Hb & _).
    eexists. split; [exact Hnew|]. split; [|done].
    unfold is_unsigned in Hni, Hnj. assert (0 ≤ ni * nj) by nia.
    split_and!; try done.
    + simpl. rewrite length_replicate. lia.
    + eexists a, b, _, _. simpl. split_and!; try done.
      * rewrite length_mjoin_replicate, length_quiescent. lia.
      * rewrite length_replicate. lia.
  - intros st (Hni & Hnj & Hfit & Hlen & a & b & bufa & bufb
               & Ha & Hb & Hab & Hbufa & Hbufb & Hla & Hlb).
    split; [|done]. split_and!; try done.
    exists b, a, bufb, bufa. simpl. split_and!; done.
  - intros st ndebug i j nd L' (Hni & Hnj & Hfit & Hlen & Hbufs).
    unfold set_node_desc.
    destruct (negb ndebug && negb (pool_allocate (mem_pool_ st.2) nd).2);
      [discriminate|].
    case_decide; [|discriminate]. intros [= <-]. simpl.
    split; [|done]. split_and!; try done.
    simpl. by rewrite length_insert.
Qed.

End Shape.

(** ** Assigning node descriptors *)

Section Assigning.
Context {D P MM CM : Type} `{!SimpleMemPool D P, !AbstractNodeDesc D P MM CM}.
Implicit Types (st : state D P) (L : Lattice D P) (h : heap).


(** X8: what [set_node_desc] does with a null pointer from the pool.  The
    build with assertions stops at the [assert]; the [NDEBUG] build, for a
    cell whose index is inside [node_descs_], stores the null pointer and
    returns, and the cell then holds a null handle, which [stream(i, j)]
    dereferences. *)
Theorem set_node_desc_failures L (i j : Z) (nd : D) :
  ((pool_allocate (mem_pool_ L) nd).2 = false →
     set_node_desc false L i j nd = Fault AssertFailed) ∧
  ((pool_allocate (mem_pool_ L) nd).2 = false →
   (Z.to_nat (u32 (u32 (nj_ L * i) + j)) < length (node_descs_ L))%nat →
     ∃ L', set_node_desc true L i j nd = Ok L' ∧
           node_desc L' i j = Fault NullDeref ∧
           ∀ h, stream_ij (h, L') i j = Fault NullDeref).
Proof.
  split.
  - intros Halloc. unfold set_node_desc. rewrite Halloc. reflexivity.
  - intros Halloc Hidx. unfold set_node_desc. rewrite Halloc. simpl.
    rewrite decide_True by exact Hidx.
    eexists. split; [reflexivity|].
    assert (Hnull : ∀ L', nj_ L' = nj_ L →
      node_descs_ L' = <[Z.to_nat (u32 (u32 (nj_ L * i) + j)) := None]> (node_descs_ L) →
      node_desc L' i j = Fault NullDeref).
    { intros L' Hnj Hds. unfold node_desc. rewrite Hnj, Hds.
      rewrite list_lookup_insert_eq by exact Hidx. reflexivity. }
    split.
    + by apply Hnull.
    + intros h. apply stream_ij_null. by apply Hnull.
Qed.

End Assigning.

(** ** Destruction *)

Section Destruction.
Context {D P MM CM : Type} `{!SimpleMemPool D P, !AbstractNodeDesc D P MM CM}.
Implicit Types (st : state D P) (L : Lattice D P) (h : heap) (ds : list D).

(** A null handle is dereferenced once the nodes before it are destroyed. *)
Lemma destroy_node_descs_null ds (hs : list (option D)) :
  Forall (λ d, nd_destroy d = Ok ()) ds →
  destroy_node_descs ((Some <$> ds) ++ None :: hs) = (ds, Fault NullDeref).
Proof.
  induction 1 as [|d ds Hd _ IH]; [reflexivity|].
  rewrite fmap_cons. cbn [app destroy_node_descs]. rewrite Hd, IH. reflexivity.
Qed.

(** X9: what [~Lattice()] does, by the handles it finds.  No exception
    ever leaves it.  When every handle holds a node whose destructor
    returns, every node is destroyed, in order, and the two arrays are
    given back.  When a destructor throws, the nodes up to that one are
    the only ones destroyed, and the arrays are given back all the same.
    When a handle is null, it is dereferenced after the nodes before it
    are destroyed, which no handler catches. *)
Theorem Lattice_dtor_outcomes st :
  (∀ type what, (Lattice_dtor st).2 ≠ Fault (Thrown type what)) ∧
  (∀ ds, node_descs_ st.2 = Some <$> ds →
     Forall (λ d, nd_destroy d = Ok ()) ds →
     Lattice_dtor st
     = (ds, Ok (release (release st.1 (pftemp st.2)) (pf st.2)))) ∧
  (∀ ds d hs type what, node_descs_ st.2 = (Some <$> ds) ++ Some d :: hs →
     Forall (λ d, nd_destroy d = Ok ()) ds →
     nd_destroy d = Fault (Thrown type what) →
     Lattice_dtor st
     = (ds ++ [d], Ok (release (release st.1 (pftemp st.2)) (pf st.2)))) ∧
  (∀ ds hs, node_descs_ st.2 = (Some <$> ds) ++ None :: hs →
     Forall (λ d, nd_destroy d = Ok ()) ds →
     Lattice_dtor st = (ds, Fault NullDeref)).
Proof.
  split_and!.
  - intros type what. unfold Lattice_dtor. simpl.
    destruct (destroy_node_descs (node_descs_ st.2)).2 as [[]|[]];
      simpl; discriminate.
  - intros ds Hds Hok. unfold Lattice_dtor.
    rewrite Hds, destroy_node_descs_all by exact Hok. reflexivity.
  - intros ds d hs type what Hds Hok Hthrow. unfold Lattice_dtor.
    rewrite Hds, (destroy_node_descs_throw ds d hs type what) by assumption.
    reflexivity.
  - intros ds hs Hds Hok. unfold Lattice_dtor.
    rewrite Hds, destroy_node_descs_null by exact Hok. reflexivity.
Qed.

(** X10: a lattice with at least one cell that is destroyed as the
    constructor returned it, without a node assigned to its first cell,
    has its destructor dereference a null handle. *)
Theorem Lattice_dtor_of_new_lattice h (ni nj : Z) (rho : float) :
  is_unsigned ni → is_unsigned nj → ni * nj * 9 < 2 ^ 32 → 1 ≤ ni → 1 ≤ nj →
  ∃ st, Lattice_new h ni nj rho = Ok st ∧
        Lattice_dtor st = ([], Fault NullDeref).
Proof.
  intros Hni Hnj Hfit Hi Hj.
  destruct (Lattice_new_Ok h ni nj rho Hni Hnj Hfit) as (h' & a & b & Hnew & _).
  eexists. split; [exact Hnew|].
  unfold Lattice_dtor. cbn [snd node_descs_].
  assert (Hcells : ∃ n, Z.to_nat (ni * nj) = Datatypes.S n).
  { exists (Z.to_nat (ni * nj) - 1)%nat. nia. }
  destruct Hcells as [n ->]. reflexivity.
Qed.

(** X11: construction and destruction give the store back.  The
    constructor changes the store at the addresses of its two new arrays
    only.  Whatever the two arrays hold by then, and as long as the rest of
    the store is as it was before the construction, destroying the lattice,
    once every handle holds a node whose destructor returns, leaves the
    store as it was before the construction. *)
Theorem construct_destroy_restores_store h (ni nj : Z) (rho : float) :
  is_unsigned ni → is_unsigned nj → ni * nj * 9 < 2 ^ 32 →
  ∃ st (a b : loc),
    Lattice_new h ni nj rho = Ok st ∧ pf st.2 = Some a ∧ pftemp st.2 = Some b ∧
    (∀ l, l ≠ a → l ≠ b → st.1 !! l = h !! l) ∧
    ∀ (h' : heap) ds (pool : P),
      (∀ l, l ≠ a → l ≠ b → h' !! l = h !! l) →
      Forall (λ d, nd_destroy d = Ok ()) ds →
      Lattice_dtor (h', {| ni_ := ni; nj_ := nj; spf_ := Some a; spftemp_ := Some b;
                           node_descs_ := Some <$> ds; mem_pool_ := pool |})
      = (ds, Ok h).
Proof.
  intros Hni Hnj Hfit.
  destruct (Lattice_new_Ok h ni nj rho Hni Hnj Hfit)
    as (h0 & a & b & Hnew & Hab & Ha & Hb & _ & _ & Hrest0).
  eexists _, a, b. split; [exact Hnew|]. split; [reflexivity|]. split; [reflexivity|].
  split; [exact Hrest0|].
  intros h' ds pool Hrest Hok. unfold Lattice_dtor. cbn [snd fst node_descs_].
  rewrite destroy_node_descs_all by exact Hok.
  cbn [fst snd catch_all mbind Res_bind spf_ spftemp_ release]. do 2 f_equal.
  apply map_eq. intros l.
  destruct (decide (l = a)) as [->|Hla]; [by rewrite lookup_delete_eq|].
  rewrite lookup_delete_ne by done.
  destruct (decide (l = b)) as [->|Hlb]; [by rewrite lookup_delete_eq|].
  rewrite lookup_delete_ne by done. by apply Hrest.
Qed.

End Destruction.

(** ** Sweeps over regions *)

Lemma region_cells_no_columns (bi ei bj ej : Z) :
  ej < bj → region_cells bi ei bj ej = [].
Proof.
  intros Hcols. unfold region_cells. rewrite (seqZ_nil bj) by lia.
  induction (seqZ bi (ei - bi + 1)) as [|i rows IH]; [reflexivity|].
  csimpl. exact IH.
Qed.

Lemma region_cells_rows_app (bi m ei bj ej : Z) :
  bi ≤ m + 1 → m ≤ ei →
  region_cells bi ei bj ej = region_cells bi m bj ej ++ region_cells (m + 1) ei bj ej.
Proof.
  intros Hlo Hhi. unfold region_cells.
  replace (ei - bi + 1) with ((m - bi + 1) + (ei - (m + 1) + 1)) by lia.
  rewrite (seqZ_app bi (m - bi + 1) (ei - (m + 1) + 1)) by lia. rewrite bind_app.
  replace (bi + (m - bi + 1)) with (m + 1) by lia. reflexivity.
Qed.

(** Two nested loops of which one runs up to [UINT_MAX] do not return. *)
Lemma nested_loops_never_return {S} (op : S → Z → Z → Res S) (fuel : nat)
    (ei ej : Z) (s s' : S) :
  ei = 2 ^ 32 - 1 ∨ (0 ≤ ei ∧ ej = 2 ^ 32 - 1) →
  for_upto fuel 0 ei (λ i, for_upto fuel 0 ej (λ j s, op s i j)) s ≠ Ok s'.
Proof.
  intros [->|[Hei ->]].
  - apply for_upto_UINT_MAX. unfold is_unsigned. lia.
  - apply for_upto_first_stuck; [exact Hei|].
    intros s1. apply for_upto_UINT_MAX. unfold is_unsigned. lia.
Qed.

Section Regions.
Context {D P MM CM : Type} `{!AbstractNodeDesc D P MM CM}.
Implicit Types (st : state D P) (cman : CM) (mmap : MM).

(** X12: a region without a row ([ei < bi]), or with rows below
    [UINT_MAX] and without a column ([ej < bj]), is swept without a
    per-cell call: [stream] and [collide_and_bound] return the state, and
    the multiscale map, as they found them. *)
Theorem empty_region_is_left_alone (fuel : nat) st cman mmap (bi ei bj ej : Z) :
  ei < bi ∨
  (ej < bj ∧ 0 ≤ bi ∧ ei < 2 ^ 32 - 1 ∧ is_unsigned bj ∧
   (Z.to_nat (ei - bi + 1) ≤ fuel)%nat) →
  stream_region (Datatypes.S fuel) st bi ei bj ej = Ok st ∧
  collide_and_bound_region (Datatypes.S fuel) cman (st, mmap) bi ei bj ej
  = Ok (st, mmap).
Proof.
  intros [Hrows|(Hcols & Hbi & Hei & Hbj & Hfuel)].
  - unfold stream_region, collide_and_bound_region. simpl.
    rewrite !bool_decide_eq_false_2 by lia. done.
  - unfold is_unsigned in Hbj. split.
    + unfold stream_region.
      rewrite (nested_loops_run_cells stream_ij) by lia.
      rewrite region_cells_no_columns by lia. reflexivity.
    + unfold collide_and_bound_region.
      rewrite (nested_loops_run_cells (collide_and_bound_ij cman)) by lia.
      rewrite region_cells_no_columns by lia. reflexivity.
Qed.

(** X13: a region is swept as its upper rows and then its lower rows: for
    [bi <= m < ei], the sweep of rows [bi] to [ei] is the sweep of rows
    [bi] to [m] followed, when that one returns, by the sweep of rows
    [m + 1] to [ei] in the state it left. *)
Theorem region_sweep_splits_by_rows (fuel : nat) st cman mmap (bi m ei bj ej : Z) :
  0 ≤ bi ≤ m → m < ei → ei < 2 ^ 32 - 1 → 0 ≤ bj → ej < 2 ^ 32 - 1 →
  (Z.to_nat (ei - bi + 1) < fuel)%nat → (Z.to_nat (ej - bj + 1) < fuel)%nat →
  stream_region fuel st bi ei bj ej
  = (s ← stream_region fuel st bi m bj ej; stream_region fuel s (m + 1) ei bj ej) ∧
  collide_and_bound_region fuel cman (st, mmap) bi ei bj ej
  = (s ← collide_and_bound_region fuel cman (st, mmap) bi m bj ej;
     collide_and_bound_region fuel cman s (m + 1) ei bj ej).
Proof.
  intros Hbi Hm Hei Hbj Hej Hfi Hfj.
  assert (Hsplit : ∀ {S} (op : S → Z → Z → Res S) (s : S),
    for_upto fuel bi ei (λ i, for_upto fuel bj ej (λ j s, op s i j)) s
    = (s' ← for_upto fuel bi m (λ i, for_upto fuel bj ej (λ j s, op s i j)) s;
       for_upto fuel (m + 1) ei (λ i, for_upto fuel bj ej (λ j s, op s i j)) s')).
  { intros S op s.
    rewrite (nested_loops_run_cells op fuel bi ei) by lia.
    rewrite (nested_loops_run_cells op fuel bi m) by lia.
    rewrite (region_cells_rows_app bi m ei) by lia.
    unfold run_cells. rewrite run_seq_app.
    destruct (run_seq _ (region_cells bi m bj ej) s) as [s'|e]; simpl; [|reflexivity].
    rewrite (nested_loops_run_cells op fuel (m + 1) ei) by lia. reflexivity. }
  split.
  - apply (Hsplit _ stream_ij).
  - apply (Hsplit _ (collide_and_bound_ij cman)).
Qed.

(** X14: the sweep of the region of one cell is the per-cell operation on
    that cell. *)
Theorem one_cell_region_is_the_cell (fuel : nat) st cman mmap (i j : Z) :
  0 ≤ i < 2 ^ 32 - 1 → 0 ≤ j < 2 ^ 32 - 1 → (2 ≤ fuel)%nat →
  stream_region fuel st i i j j = stream_ij st i j ∧
  collide_and_bound_region fuel cman (st, mmap) i i j j
  = collide_and_bound_ij cman (st, mmap) i j.
Proof.
  intros Hi Hj Hfuel.
  assert (Hcells : region_cells i i j j = [(i, j)]).
  { unfold region_cells. replace (i - i + 1) with 1 by lia.
    replace (j - j + 1) with 1 by lia. reflexivity. }
  split.
  - unfold stream_region.
    rewrite (nested_loops_run_cells stream_ij) by lia.
    rewrite Hcells. unfold run_cells. simpl.
    destruct (stream_ij st i j); reflexivity.
  - unfold collide_and_bound_region.
    rewrite (nested_loops_run_cells (collide_and_bound_ij cman)) by lia.
    rewrite Hcells. unfold run_cells. simpl.
    destruct (collide_and_bound_ij cman (st, mmap) i j); reflexivity.
Qed.

(** X15: on every lattice without cells, [ni_] or [nj_] being zero, the
    whole-grid [stream()] and [collide_and_bound(mmap, cman)] never return
    normally, and a fault of the per-cell operation on the cell (0, 0),
    with which they begin, is their fault. *)
Theorem whole_grid_without_cells_never_returns (fuel : nat) st cman mmap :
  is_unsigned (ni_ st.2) → is_unsigned (nj_ st.2) →
  ni_ st.2 = 0 ∨ nj_ st.2 = 0 →
  (∀ st', stream fuel st ≠ Ok st') ∧
  (∀ sm', collide_and_bound fuel cman (st, mmap) ≠ Ok sm') ∧
  (∀ e, stream_ij st 0 0 = Fault e → stream (Datatypes.S fuel) st = Fault e) ∧
  (∀ e, collide_and_bound_ij cman (st, mmap) 0 0 = Fault e →
        collide_and_bound (Datatypes.S fuel) cman (st, mmap) = Fault e).
Proof.
  intros Hni Hnj Hzero.
  assert (Hends : u32 (ni_ st.2 - 1) = 2 ^ 32 - 1 ∨
                  (0 ≤ u32 (ni_ st.2 - 1) ∧ u32 (nj_ st.2 - 1) = 2 ^ 32 - 1)).
  { destruct Hzero as [->| ->]; [left; reflexivity|right].
    split; [apply u32_range|reflexivity]. }
  split_and!.
  - intros st'. unfold stream, stream_region.
    by apply (nested_loops_never_return stream_ij).
  - intros sm'. unfold collide_and_bound, collide_and_bound_region.
    by apply (nested_loops_never_return (collide_and_bound_ij cman)).
  - intros e. by apply stream_first_cell.
  - intros e. by apply collide_and_bound_first_cell.
Qed.

End Regions.

(** ** Instances of the further properties *)

Lemma mock_shaped_2x3_shape : Lattice_shape mock_shaped_2x3.
Proof.
  unfold Lattice_shape, is_unsigned. simpl. split_and!; try lia.
  exists 1%positive, 2%positive, (replicate 54 None), (replicate 54 None).
  split_and!; try done.
Qed.

(** [f_reads_f__element_iff] at the cell (1, 2), direction 4, of the 2 x 3
    lattice: [f] reads element 14, [f_] designates element 49. *)
Lemma f_reads_f__element_iff_2x3 :
  spf_ mock_shaped_2x3.2 = Some 1%positive ∧
  spftemp_ mock_shaped_2x3.2 = Some 2%positive ∧
  f mock_shaped_2x3 1 2 4 = load mock_shaped_2x3.1 (1%positive, 14) ∧
  f_ mock_shaped_2x3.2 1 2 4 = Ok (1%positive, 49).
Proof.
  split; [reflexivity|]. split; [reflexivity|].
  destruct (f_reads_f__element_iff mock_shaped_2x3 1%positive 2%positive 1 2 4)
    as (Hf & Hf_ & _); simpl; try (reflexivity || lia).
  split; [exact Hf|exact Hf_].
Defined.

(** [f__elements_distinct] at the triples (1, 2, 4) and (0, 1, 8). *)
Lemma f__elements_distinct_2x3 :
  spf_ mock_shaped_2x3.2 = Some 1%positive ∧
  ∃ off off' : Z,
    f_ mock_shaped_2x3.2 1 2 4 = Ok (1%positive, off) ∧
    f_ mock_shaped_2x3.2 0 1 8 = Ok (1%positive, off') ∧
    0 ≤ off < 54 ∧ off ≠ off'.
Proof.
  split; [reflexivity|].
  destruct (f__elements_distinct mock_shaped_2x3.2 1%positive 1 2 4 0 1 8)
    as (off & off' & H1 & H2 & Hin & Hiff); simpl; try (reflexivity || lia).
  exists off, off'. split; [exact H1|]. split; [exact H2|].
  split; [simpl in Hin; lia|]. intros Heq. apply Hiff in Heq. lia.
Defined.

(** [set_f__then_get_f_]: writing 0.5 at (1, 2, 4) and reading it back. *)
Lemma set_f__then_get_f__2x3 :
  Lattice_shape mock_shaped_2x3 ∧
  ∃ st', set_f_ mock_shaped_2x3 1 2 4 0.5%float = Ok st' ∧
         get_f_ st' 1 2 4 = Ok 0.5%float.
Proof.
  split; [exact mock_shaped_2x3_shape|].
  destruct (set_f__then_get_f_ mock_shaped_2x3 0.5%float 1 2 4 mock_shaped_2x3_shape)
    as (st' & Hset & _ & _ & Hget & _); simpl; try lia.
  exists st'. split; assumption.
Defined.

(** [in_bounds_accesses_in_range] at the cell (1, 2). *)
Lemma in_bounds_accesses_in_range_2x3 :
  Lattice_shape mock_shaped_2x3 ∧ is_int 1 ∧ is_int 2 ∧
  in_bounds mock_shaped_2x3.2 1 2 = true ∧
  node_desc mock_shaped_2x3.2 1 2 ≠ Fault OutOfRange.
Proof.
  assert (H1 : is_int 1) by (unfold is_int; lia).
  assert (H2 : is_int 2) by (unfold is_int; lia).
  split_and!; try assumption; try reflexivity; [exact mock_shaped_2x3_shape|].
  apply (in_bounds_accesses_in_range mock_shaped_2x3 1 2 mock_shaped_2x3_shape H1 H2).
  reflexivity.
Defined.


(** [Lattice_dtor_of_new_lattice] on a 2 x 3 lattice. *)
Lemma Lattice_dtor_of_new_lattice_2x3 :
  is_unsigned 2 ∧ is_unsigned 3 ∧ 2 * 3 * 9 < 2 ^ 32 ∧
  ∃ st : state bool Z,
    Lattice_new ∅ 2 3 1%float = Ok st ∧ Lattice_dtor st = ([], Fault NullDeref).
Proof.
  assert (H2 : is_unsigned 2) by (unfold is_unsigned; lia).
  assert (H3 : is_unsigned 3) by (unfold is_unsigned; lia).
  assert (Hfit : 2 * 3 * 9 < 2 ^ 32) by lia.
  split_and!; try assumption.
  apply (Lattice_dtor_of_new_lattice (D:=bool) (P:=Z) ∅ 2 3 1%float H2 H3 Hfit); lia.
Defined.

(** [construct_destroy_restores_store] on a 2 x 3 lattice built in the
    empty store and destroyed with six nodes assigned. *)
Lemma construct_destroy_restores_store_2x3 :
  is_unsigned 2 ∧ is_unsigned 3 ∧ 2 * 3 * 9 < 2 ^ 32 ∧
  ∃ (st : state bool Z) (a b : loc),
    Lattice_new ∅ 2 3 1%float = Ok st ∧
    Lattice_dtor (st.1, mkLattice 2 3 (Some a) (Some b) (Some <$> replicate 6 true) 0)
    = (replicate 6 true, Ok ∅).
Proof.
  assert (H2 : is_unsigned 2) by (unfold is_unsigned; lia).
  assert (H3 : is_unsigned 3) by (unfold is_unsigned; lia).
  assert (Hfit : 2 * 3 * 9 < 2 ^ 32) by lia.
  split_and!; try assumption.
  destruct (construct_destroy_restores_store (D:=bool) (P:=Z) ∅ 2 3 1%float H2 H3 Hfit)
    as (st & a & b & Hnew & _ & _ & Hrest & Hdtor).
  exists st, a, b. split; [exact Hnew|].
  apply Hdtor; [exact Hrest|repeat constructor].
Defined.

(** [empty_region_is_left_alone]: rows 1 to 0 of the 2 x 3 lattice. *)
Lemma empty_region_is_left_alone_2x3 :
  0 < 1 ∧ stream_region 1 mock_shaped_2x3 1 0 0 2 = Ok mock_shaped_2x3.
Proof.
  split; [lia|].
  apply (empty_region_is_left_alone 0 mock_shaped_2x3 () [] 1 0 0 2). left. lia.
Defined.

(** [region_sweep_splits_by_rows]: the 2 x 3 lattice, row 0 then row 1. *)
Lemma region_sweep_splits_by_rows_2x3 :
  (Z.to_nat (1 - 0 + 1) < 4)%nat ∧ (Z.to_nat (2 - 0 + 1) < 4)%nat ∧
  collide_and_bound_region 4 () (mock_shaped_2x3, []) 0 1 0 2
  = (s ← collide_and_bound_region 4 () (mock_shaped_2x3, []) 0 0 0 2;
     collide_and_bound_region 4 () s 1 1 0 2).
Proof.
  split; [simpl; lia|]. split; [simpl; lia|].
  apply (region_sweep_splits_by_rows 4 mock_shaped_2x3 () [] 0 0 1 0 2);
    simpl; lia.
Defined.

(** [one_cell_region_is_the_cell]: the cell (1, 2) of the 2 x 3 lattice. *)
Lemma one_cell_region_is_the_cell_2x3 :
  (2 ≤ 2)%nat ∧
  stream_region 2 mock_shaped_2x3 1 1 2 2 = stream_ij mock_shaped_2x3 1 2.
Proof.
  split; [lia|].
  apply (one_cell_region_is_the_cell 2 mock_shaped_2x3 () [] 1 2); lia.
Defined.

(** [whole_grid_without_cells_never_returns]: the lattice of [Lattice()],
    whose sweep does not return the lattice. *)
Lemma whole_grid_without_cells_never_returns_default :
  is_unsigned 0 ∧
  stream 3 ((∅, Lattice_default) : state bool Z) ≠ Ok (∅, Lattice_default).
Proof.
  assert (H0 : is_unsigned 0) by (unfold is_unsigned; lia).
  split; [exact H0|].
  apply (whole_grid_without_cells_never_returns 3 (∅, Lattice_default) () []);
    [exact H0|exact H0|by left].
Defined.

(** ** The reach of the public accessors *)

Section Reach.
Context {D P : Type}.
Implicit Types (st : state D P).

Lemma ftemp_in_range st (b : loc) (i j k : Z) :
  spftemp_ st.2 = Some b → 0 ≤ i → 0 ≤ j → 0 ≤ k → 0 ≤ ni_ st.2 → 0 ≤ nj_ st.2 →
  ni_ st.2 * (i * nj_ st.2 + j) + k < 2 ^ 32 → i * nj_ st.2 + j < 2 ^ 32 →
  ftemp st i j k = load st.1 (b, ni_ st.2 * (i * nj_ st.2 + j) + k).
Proof.
  intros Hb Hi Hj Hk Hni Hnj Hfit Hcell. unfold ftemp. rewrite Hb. simpl.
  assert (0 ≤ i * nj_ st.2) by nia.
  rewrite (u32_small (i * nj_ st.2)) by (unfold is_unsigned; lia).
  rewrite (u32_small (i * nj_ st.2 + j)) by (unfold is_unsigned; lia).
  assert (0 ≤ ni_ st.2 * (i * nj_ st.2 + j)) by nia.
  rewrite (u32_small (ni_ st.2 * _)) by (unfold is_unsigned; lia).
  rewrite u32_small by (unfold is_unsigned; lia).
  reflexivity.
Qed.

Lemma load_in_range (h : heap) (a : loc) (buf : list (option float)) (off : Z) :
  h !! a = Some buf → 0 ≤ off →
  (load h (a, off) = Fault OutOfRange ↔ Z.of_nat (length buf) ≤ off).
Proof.
  intros Hbuf Hoff. unfold load. simpl. rewrite Hbuf.
  rewrite bool_decide_eq_true_2 by exact Hoff.
  destruct (buf !! Z.to_nat off) as [[v|]|] eqn:Hl.
  - apply lookup_lt_Some in Hl. split; [discriminate|lia].
  - apply lookup_lt_Some in Hl. split; [discriminate|lia].
  - apply lookup_ge_None in Hl. split; [lia|reflexivity].
Qed.

(** X16: on a lattice of the constructor's shape with at least one cell,
    and with [ni_ * (ni_ * nj_)] within the range of [unsigned], the public
    [f] and [ftemp] stay inside their buffer for every cell in range and
    every direction below 9 exactly when [ni_] is at most 9. *)
Theorem f_stays_in_buffer_iff st :
  Lattice_shape st → 1 ≤ ni_ st.2 → 1 ≤ nj_ st.2 →
  ni_ st.2 * (ni_ st.2 * nj_ st.2) < 2 ^ 32 →
  ((∀ i j k, 0 ≤ i < ni_ st.2 → 0 ≤ j < nj_ st.2 → 0 ≤ k < 9 →
      f st i j k ≠ Fault OutOfRange ∧ ftemp st i j k ≠ Fault OutOfRange)
   ↔ ni_ st.2 ≤ 9).
Proof.
  intros (Hni & Hnj & Hfit & Hlen & a & b & bufa & bufb
          & Ha & Hb & Hab & Hbufa & Hbufb & Hla & Hlb) Hi1 Hj1 Hsq.
  assert (Hreads : ∀ i j k, 0 ≤ i < ni_ st.2 → 0 ≤ j < nj_ st.2 → 0 ≤ k < 9 →
    0 ≤ ni_ st.2 * (i * nj_ st.2 + j) + k ∧
    f st i j k = load st.1 (a, ni_ st.2 * (i * nj_ st.2 + j) + k) ∧
    ftemp st i j k = load st.1 (b, ni_ st.2 * (i * nj_ st.2 + j) + k)).
  { intros i j k Hi Hj Hk.
    pose proof (cell_index_bound _ _ i j Hi Hj) as Hc.
    assert (ni_ st.2 * (i * nj_ st.2 + j) ≤ ni_ st.2 * (ni_ st.2 * nj_ st.2 - 1))
      by nia.
    assert (0 ≤ ni_ st.2 * (i * nj_ st.2 + j)) by nia.
    assert (ni_ st.2 * (i * nj_ st.2 + j) + k < 2 ^ 32).
    { destruct (decide (ni_ st.2 ≤ 8)); [|lia].
      assert (ni_ st.2 * (i * nj_ st.2 + j) ≤ 8 * (i * nj_ st.2 + j)) by nia. lia. }
    split_and!; [lia| |].
    - apply f_in_range; (assumption || lia).
    - apply ftemp_in_range; (assumption || lia). }
  split.
  - intros Hsafe. destruct (decide (ni_ st.2 ≤ 9)) as [?|Hbig]; [assumption|].
    exfalso.
    destruct (Hsafe (ni_ st.2 - 1) (nj_ st.2 - 1) 8) as [Hf _]; try lia.
    destruct (Hreads (ni_ st.2 - 1) (nj_ st.2 - 1) 8) as (Hpos & Heq & _); try lia.
    apply Hf. rewrite Heq. apply (load_in_range _ _ bufa); [assumption|assumption|].
    rewrite Hla. nia.
  - intros Hsmall i j k Hi Hj Hk.
    destruct (Hreads i j k Hi Hj Hk) as (Hpos & Hf & Hft).
    pose proof (cell_index_bound _ _ i j Hi Hj) as Hc.
    assert (ni_ st.2 * (i * nj_ st.2 + j) ≤ 9 * (i * nj_ st.2 + j)) by nia.
    split.
    + rewrite Hf, (load_in_range _ _ bufa) by assumption. lia.
    + rewrite Hft, (load_in_range _ _ bufb) by assumption. lia.
Qed.

End Reach.

(** [f_stays_in_buffer_iff] on the 2 x 3 lattice, whose [ni_] is 2. *)
Lemma f_stays_in_buffer_iff_2x3 :
  Lattice_shape mock_shaped_2x3 ∧ f mock_shaped_2x3 1 2 8 ≠ Fault OutOfRange.
Proof.
  split; [exact mock_shaped_2x3_shape|].
  apply (proj2 (f_stays_in_buffer_iff mock_shaped_2x3 mock_shaped_2x3_shape
                  ltac:(simpl; lia) ltac:(simpl; lia) ltac:(simpl; lia))
           ltac:(simpl; lia) 1 2 8); simpl; lia.
Defined.
